(** * Snake (jose98pp/Snake): a shallow embedding of [snake.py]

    The game state owned by [JuegoSnake] becomes the record [Juego]; every
    method becomes a function on that record.  Randomness ([random.randint],
    [random.choice]) is read from an explicit list of raw draws that is
    threaded through the functions that use it; the rejection-sampling
    [while True] loops recurse on that list, so a run that has not yet found
    a valid cell when the draws are used up yields [None].  A Python
    exception ([IndexError] on an empty snake, [AttributeError] on a missing
    food) is [None] as well.

    Turtle coordinates are Python numbers that only ever hold small
    integers (the home position 0.0 and sums of multiples of 20), so they
    are modelled exactly by [Z]. *)

From stdpp Require Import base option list strings gmap pretty.

Local Open Scope Z_scope.

(** ** Configuration constants *)

Definition ANCHO_PANTALLA : Z := 600.
Definition ALTO_PANTALLA : Z := 600.
Definition TAMAÑO_CELDA : Z := 20.
Definition VELOCIDAD_BASE : Z := 150.
Definition PUNTOS_POR_NIVEL : Z := 50.

(** ** Data model *)

Inductive TipoComida := VENENOSA | FIT | ALTO_GRASAS | REAL.

Global Instance TipoComida_eq_dec : EqDecision TipoComida.
Proof. solve_decision. Defined.

Global Instance TipoComida_inhabited : Inhabited TipoComida := populate FIT.

(** A position of a turtle on the screen. *)
Definition Pos : Type := Z * Z.

(** [Comida]: the variant tag, and the coordinates [x], [y] (the food's
    turtle sits at the same coordinates). *)
Record Comida := { c_tipo : TipoComida; c_x : Z; c_y : Z }.

Record Obstaculo := { o_x : Z; o_y : Z }.

(** The dictionary [{"tipo": ..., "duracion": ...}]. *)
Record Efecto := { tipo : string; duracion : Z }.

Record Juego := {
  serpiente : list Pos;
  obstaculos : list Obstaculo;
  direccion : string;
  puntaje : Z;
  nivel : Z;
  juegos_jugados : Z;
  velocidad_actual : Z;
  efecto_temporal : option Efecto;
  mensaje_actual : string;
  tiempo_mensaje : Z;
  color_mensaje : string;
  comida : option Comida
}.

(** Field updates. *)
Definition con_serpiente (l : list Pos) (s : Juego) : Juego :=
  {| serpiente := l; obstaculos := obstaculos s; direccion := direccion s;
     puntaje := puntaje s; nivel := nivel s;
     juegos_jugados := juegos_jugados s;
     velocidad_actual := velocidad_actual s;
     efecto_temporal := efecto_temporal s;
     mensaje_actual := mensaje_actual s; tiempo_mensaje := tiempo_mensaje s;
     color_mensaje := color_mensaje s; comida := comida s |}.

Definition con_obstaculos (l : list Obstaculo) (s : Juego) : Juego :=
  {| serpiente := serpiente s; obstaculos := l; direccion := direccion s;
     puntaje := puntaje s; nivel := nivel s;
     juegos_jugados := juegos_jugados s;
     velocidad_actual := velocidad_actual s;
     efecto_temporal := efecto_temporal s;
     mensaje_actual := mensaje_actual s; tiempo_mensaje := tiempo_mensaje s;
     color_mensaje := color_mensaje s; comida := comida s |}.

Definition con_direccion (d : string) (s : Juego) : Juego :=
  {| serpiente := serpiente s; obstaculos := obstaculos s; direccion := d;
     puntaje := puntaje s; nivel := nivel s;
     juegos_jugados := juegos_jugados s;
     velocidad_actual := velocidad_actual s;
     efecto_temporal := efecto_temporal s;
     mensaje_actual := mensaje_actual s; tiempo_mensaje := tiempo_mensaje s;
     color_mensaje := color_mensaje s; comida := comida s |}.

Definition con_puntaje (p : Z) (s : Juego) : Juego :=
  {| serpiente := serpiente s; obstaculos := obstaculos s;
     direccion := direccion s; puntaje := p; nivel := nivel s;
     juegos_jugados := juegos_jugados s;
     velocidad_actual := velocidad_actual s;
     efecto_temporal := efecto_temporal s;
     mensaje_actual := mensaje_actual s; tiempo_mensaje := tiempo_mensaje s;
     color_mensaje := color_mensaje s; comida := comida s |}.

Definition con_nivel (n : Z) (s : Juego) : Juego :=
  {| serpiente := serpiente s; obstaculos := obstaculos s;
     direccion := direccion s; puntaje := puntaje s; nivel := n;
     juegos_jugados := juegos_jugados s;
     velocidad_actual := velocidad_actual s;
     efecto_temporal := efecto_temporal s;
     mensaje_actual := mensaje_actual s; tiempo_mensaje := tiempo_mensaje s;
     color_mensaje := color_mensaje s; comida := comida s |}.

Definition con_juegos_jugados (n : Z) (s : Juego) : Juego :=
  {| serpiente := serpiente s; obstaculos := obstaculos s;
     direccion := direccion s; puntaje := puntaje s; nivel := nivel s;
     juegos_jugados := n;
     velocidad_actual := velocidad_actual s;
     efecto_temporal := efecto_temporal s;
     mensaje_actual := mensaje_actual s; tiempo_mensaje := tiempo_mensaje s;
     color_mensaje := color_mensaje s; comida := comida s |}.

Definition con_velocidad (v : Z) (s : Juego) : Juego :=
  {| serpiente := serpiente s; obstaculos := obstaculos s;
     direccion := direccion s; puntaje := puntaje s; nivel := nivel s;
     juegos_jugados := juegos_jugados s;
     velocidad_actual := v;
     efecto_temporal := efecto_temporal s;
     mensaje_actual := mensaje_actual s; tiempo_mensaje := tiempo_mensaje s;
     color_mensaje := color_mensaje s; comida := comida s |}.

Definition con_efecto (e : option Efecto) (s : Juego) : Juego :=
  {| serpiente := serpiente s; obstaculos := obstaculos s;
     direccion := direccion s; puntaje := puntaje s; nivel := nivel s;
     juegos_jugados := juegos_jugados s;
     velocidad_actual := velocidad_actual s;
     efecto_temporal := e;
     mensaje_actual := mensaje_actual s; tiempo_mensaje := tiempo_mensaje s;
     color_mensaje := color_mensaje s; comida := comida s |}.

Definition con_tiempo_mensaje (t : Z) (s : Juego) : Juego :=
  {| serpiente := serpiente s; obstaculos := obstaculos s;
     direccion := direccion s; puntaje := puntaje s; nivel := nivel s;
     juegos_jugados := juegos_jugados s;
     velocidad_actual := velocidad_actual s;
     efecto_temporal := efecto_temporal s;
     mensaje_actual := mensaje_actual s; tiempo_mensaje := t;
     color_mensaje := color_mensaje s; comida := comida s |}.

Definition con_comida (c : option Comida) (s : Juego) : Juego :=
  {| serpiente := serpiente s; obstaculos := obstaculos s;
     direccion := direccion s; puntaje := puntaje s; nivel := nivel s;
     juegos_jugados := juegos_jugados s;
     velocidad_actual := velocidad_actual s;
     efecto_temporal := efecto_temporal s;
     mensaje_actual := mensaje_actual s; tiempo_mensaje := tiempo_mensaje s;
     color_mensaje := color_mensaje s; comida := c |}.

(** [mostrar_mensaje]: stores the message, its 60-frame duration and the
    colour of the message turtle. *)
Definition mostrar_mensaje (mensaje color : string) (s : Juego) : Juego :=
  {| serpiente := serpiente s; obstaculos := obstaculos s;
     direccion := direccion s; puntaje := puntaje s; nivel := nivel s;
     juegos_jugados := juegos_jugados s;
     velocidad_actual := velocidad_actual s;
     efecto_temporal := efecto_temporal s;
     mensaje_actual := mensaje; tiempo_mensaje := 60;
     color_mensaje := color; comida := comida s |}.

(** ** The random source *)

(** Raw draws; each call of the [random] module consumes one. *)
Definition Azar : Type := list Z.

(** [random.randint(lo, hi)]: any integer of [lo..hi], chosen by the raw
    draw. *)
Definition randint (lo hi r : Z) : Z := lo + r `mod` (hi - lo + 1).

(** [round(x / d)] for integers [x] and [d > 0]: Python 3 rounds the
    quotient to the nearest integer, halves to the even one.  The quotient
    is a float in the source; for the draws of -280..280 and [d = 20] the
    halves are floats themselves and every other quotient is at least 1/20
    away from a half, so rounding the float and rounding the exact quotient
    give the same integer. *)
Definition redondear_cociente (x d : Z) : Z :=
  let q := x `div` d in
  let r := x `mod` d in
  if 2 * r <? d then q
  else if d <? 2 * r then q + 1
  else if Z.even q then q else q + 1.

(** [round(x / TAMAÑO_CELDA) * TAMAÑO_CELDA] *)
Definition alinear (x : Z) : Z := redondear_cociente x TAMAÑO_CELDA * TAMAÑO_CELDA.

(** ** GestorFabricas *)

Definition tipos_comida : list TipoComida :=
  replicate 4 FIT ++ replicate 3 ALTO_GRASAS ++
  replicate 2 REAL ++ replicate 1 VENENOSA.

(** [random.choice(seq)] *)
Definition choice {A} `{Inhabited A} (seq : list A) (r : Z) : A :=
  seq !!! Z.to_nat (r `mod` Z.of_nat (length seq)).

(** [crear_comida_aleatoria]: three draws, in the order of the source. *)
Definition crear_comida_aleatoria (rx ry rk : Z) : Comida :=
  let x := randint (-280) 280 rx in
  let y := randint (-280) 280 ry in
  let x := alinear x in
  let y := alinear y in
  let tipo_elegido := choice tipos_comida rk in
  {| c_tipo := tipo_elegido; c_x := x; c_y := y |}.

(** ** JuegoSnake *)

(** The dictionary of [cambiar_direccion]. *)
Definition direcciones_opuestas : gmap string string :=
  <["arriba" := "abajo"]> (<["abajo" := "arriba"]>
  (<["izquierda" := "derecha"]> (<["derecha" := "izquierda"]> ∅))).

(** [nueva_direccion != direcciones_opuestas.get(self.direccion)]: [get]
    gives Python's [None] for a missing key, which differs from every
    string. *)
Definition cambiar_direccion (nueva_direccion : string) (s : Juego) : Juego :=
  if decide (Some nueva_direccion ≠ direcciones_opuestas !! direccion s)
  then con_direccion nueva_direccion s
  else s.

(** The [if]/[elif] chain of [mover_serpiente] on the head coordinates. *)
Definition nueva_posicion (d : string) (p : Pos) : Pos :=
  let '(x, y) := p in
  if String.eqb d "arriba" then (x, y + TAMAÑO_CELDA)
  else if String.eqb d "abajo" then (x, y - TAMAÑO_CELDA)
  else if String.eqb d "izquierda" then (x - TAMAÑO_CELDA, y)
  else if String.eqb d "derecha" then (x + TAMAÑO_CELDA, y)
  else (x, y).

(** [for i in range(i, 0, -1): serpiente[i].goto(serpiente[i-1].pos)]:
    the turtles are moved in place, from the tail towards the head.  The
    loop starts at [len(serpiente) - 1], so [i - 1] is an index of the
    list and the [None] branch is not taken. *)
Fixpoint desplazar_cuerpo (i : nat) (l : list Pos) : list Pos :=
  match i with
  | O => l
  | S j =>
      match l !! j with
      | Some anterior => desplazar_cuerpo j (<[S j := anterior]> l)
      | None => l
      end
  end.

Definition mover_serpiente (s : Juego) : option Juego :=
  cabeza ← serpiente s !! 0%nat;
  let destino := nueva_posicion (direccion s) cabeza in
  let l := desplazar_cuerpo (length (serpiente s) - 1) (serpiente s) in
  Some (con_serpiente (<[0%nat := destino]> l) s).

(** [crecer_serpiente]: the new turtle starts at the home position. *)
Definition crecer_serpiente (s : Juego) : Juego :=
  con_serpiente (serpiente s ++ [(0, 0)]) s.

(** [a.distance(b) < r] for points with integer coordinates and an integer
    radius [r >= 0]: the Euclidean distance is below [r] exactly when its
    square is below [r * r]. *)
Definition distancia_menor (a b : Pos) (r : Z) : bool :=
  (fst a - fst b) * (fst a - fst b) + (snd a - snd b) * (snd a - snd b) <? r * r.

Definition verificar_colisiones (s : Juego) : option bool :=
  cabeza ← serpiente s !! 0%nat;
  let '(x, y) := cabeza in
  if (290 <? x) || (x <? -290) || (290 <? y) || (y <? -290) then Some true
  else Some (existsb (fun segmento => distancia_menor cabeza segmento 10)
               (drop 1 (serpiente s))).

Definition verificar_colision_obstaculos (s : Juego) : option bool :=
  cabeza ← serpiente s !! 0%nat;
  Some (existsb (fun o => distancia_menor cabeza (o_x o, o_y o) 15)
          (obstaculos s)).

(** *** Food effects: [Comida.aplicar_efecto] of the four classes *)

Definition aplicar_efecto (c : Comida) (s : Juego) : Juego :=
  match c_tipo c with
  | VENENOSA =>
      if (1 <? length (serpiente s))%nat then
        let s := con_serpiente (removelast (serpiente s)) s in
        let s := con_puntaje (Z.max 0 (puntaje s - 1)) s in
        mostrar_mensaje "¡Comida Venenosa! -1 punto" "purple" s
      else
        mostrar_mensaje "¡Comida Venenosa! Sin efecto" "purple" s
  | FIT =>
      let s := crecer_serpiente s in
      let s := con_puntaje (puntaje s + 1) s in
      mostrar_mensaje "¡Comida Fit! +1 punto" "green" s
  | ALTO_GRASAS =>
      let s := crecer_serpiente s in
      let s := con_puntaje (puntaje s + 3) s in
      let s := con_velocidad (Z.max 50 (velocidad_actual s - 50)) s in
      let s := con_efecto (Some {| tipo := "lento"; duracion := 5 |}) s in
      mostrar_mensaje "¡Alto en Grasas! +3 puntos (Lento)" "gold" s
  | REAL =>
      let s := crecer_serpiente s in
      let s := con_puntaje (puntaje s + 5) s in
      let s := con_velocidad (Z.min 300 (velocidad_actual s + 30)) s in
      let s := con_efecto (Some {| tipo := "rapido"; duracion := 5 |}) s in
      mostrar_mensaje "¡Comida Real! +5 puntos (Rápido)" "orange" s
  end.

(** *** Obstacles *)

(** The test of [generar_obstaculos] against the obstacles placed so far. *)
Definition conflicto_obstaculo (x y : Z) (obs : list Obstaculo) : bool :=
  existsb (fun o => (Z.abs (o_x o - x) <? 40) && (Z.abs (o_y o - y) <? 40)) obs.

(** One run of the inner [while True] loop: each round takes two draws. *)
Fixpoint colocar_obstaculo (obs : list Obstaculo) (rs : Azar)
  : option (list Obstaculo * Azar) :=
  match rs with
  | rx :: ry :: rs' =>
      let x := alinear (randint (-280) 280 rx) in
      let y := alinear (randint (-280) 280 ry) in
      if (40 <? Z.abs x) || (40 <? Z.abs y) then
        if conflicto_obstaculo x y obs then colocar_obstaculo obs rs'
        else Some (obs ++ [{| o_x := x; o_y := y |}], rs')
      else colocar_obstaculo obs rs'
  | _ => None
  end.

(** [for _ in range(n)] around it. *)
Fixpoint colocar_obstaculos (n : nat) (obs : list Obstaculo) (rs : Azar)
  : option (list Obstaculo * Azar) :=
  match n with
  | O => Some (obs, rs)
  | S n' =>
      '(obs', rs') ← colocar_obstaculo obs rs;
      colocar_obstaculos n' obs' rs'
  end.

Definition generar_obstaculos (s : Juego) (rs : Azar) : option (Juego * Azar) :=
  let num_obstaculos := (nivel s - 1) * 2 in
  '(obs, rs') ← colocar_obstaculos (Z.to_nat num_obstaculos) (obstaculos s) rs;
  Some (con_obstaculos obs s, rs').

(** *** Food placement *)

(** The two conflict tests of [generar_nueva_comida]. *)
Definition conflicto_comida (c : Comida) (s : Juego) : bool :=
  existsb (fun o => (Z.abs (c_x c - o_x o) <? 20) && (Z.abs (c_y c - o_y o) <? 20))
    (obstaculos s)
  || existsb (fun seg => (Z.abs (c_x c - fst seg) <? 20) && (Z.abs (c_y c - snd seg) <? 20))
       (serpiente s).

(** The [while True] loop: each round takes the three draws of
    [crear_comida_aleatoria]. *)
Fixpoint generar_nueva_comida (s : Juego) (rs : Azar) : option (Juego * Azar) :=
  match rs with
  | rx :: ry :: rk :: rs' =>
      let comida := crear_comida_aleatoria rx ry rk in
      if conflicto_comida comida s then generar_nueva_comida s rs'
      else Some (con_comida (Some comida) s, rs')
  | _ => None
  end.

(** *** Levels and temporary effects *)

(** The speed of a level: [VELOCIDAD_BASE + (nivel - 1) * 20]. *)
Definition velocidad_nivel (n : Z) : Z := VELOCIDAD_BASE + (n - 1) * 20.

Definition verificar_subida_nivel (s : Juego) (rs : Azar) : option (Juego * Azar) :=
  let nuevo_nivel := puntaje s `div` PUNTOS_POR_NIVEL + 1 in
  if nivel s <? nuevo_nivel then
    let s := con_nivel nuevo_nivel s in
    let s := con_velocidad (VELOCIDAD_BASE + (nivel s - 1) * 20) s in
    let s := mostrar_mensaje
               ("¡NIVEL " +:+ pretty (nivel s) +:+ "! Más velocidad y obstáculos")
               "cyan" s in
    generar_obstaculos s rs
  else Some (s, rs).

Definition actualizar_efectos_temporales (s : Juego) : Juego :=
  match efecto_temporal s with
  | Some e =>
      let e := {| tipo := tipo e; duracion := duracion e - 1 |} in
      if duracion e <=? 0 then
        con_efecto None (con_velocidad VELOCIDAD_BASE s)
      else con_efecto (Some e) s
  | None => s
  end.

(** [verificar_comida]: the head eats the food when it is nearer than 15. *)
Definition come (s : Juego) : option bool :=
  cabeza ← serpiente s !! 0%nat;
  c ← comida s;
  Some (distancia_menor cabeza (c_x c, c_y c) 15).

Definition verificar_comida (s : Juego) (rs : Azar) : option (Juego * Azar) :=
  cabeza ← serpiente s !! 0%nat;
  c ← comida s;
  if distancia_menor cabeza (c_x c, c_y c) 15 then
    let s := aplicar_efecto c s in
    '(s, rs) ← generar_nueva_comida s rs;
    verificar_subida_nivel s rs
  else Some (s, rs).

(** [actualizar_pantalla]: of the state, only the message timer changes. *)
Definition actualizar_pantalla (s : Juego) : Juego :=
  if 0 <? tiempo_mensaje s then con_tiempo_mensaje (tiempo_mensaje s - 1) s
  else s.

(** *** Initialisation and restart *)

(** [inicializar_juego].  [previo] is the object as it is when the method
    is called: [None] from the constructor, when no attribute exists yet
    ([hasattr] is false), the current state otherwise.  The message turtle
    is white when created by [configurar_pantalla]. *)
Definition inicializar_juego (previo : option Juego) (rs : Azar)
  : option (Juego * Azar) :=
  let puntaje0 := from_option puntaje 0 previo in
  let nivel0 := from_option nivel 1 previo in
  let juegos0 := from_option juegos_jugados 0 previo in
  let s :=
    {| serpiente := [];
       obstaculos := [];
       direccion := "derecha";
       puntaje := puntaje0; nivel := nivel0; juegos_jugados := juegos0;
       velocidad_actual := VELOCIDAD_BASE + (nivel0 - 1) * 20;
       efecto_temporal := None;
       mensaje_actual := ""; tiempo_mensaje := 0;
       color_mensaje := from_option color_mensaje "white" previo;
       comida := previo ≫= comida |} in
  let s := con_serpiente (serpiente s ++ [(0, 0)]) s in
  generar_obstaculos s rs.

(** [JuegoSnake.__init__] *)
Definition iniciar (rs : Azar) : option (Juego * Azar) :=
  '(s, rs) ← inicializar_juego None rs;
  generar_nueva_comida s rs.

Definition game_over (s : Juego) (rs : Azar) : option (Juego * Azar) :=
  let s := con_juegos_jugados (juegos_jugados s + 1) s in
  '(s, rs) ← inicializar_juego (Some s) rs;
  '(s, rs) ← generar_nueva_comida s rs;
  Some (mostrar_mensaje
          ("¡Juego Reiniciado! Partida #" +:+ pretty (juegos_jugados s))
          "yellow" s, rs).

(** *** The main loop *)

(** The two collision tests at the top of the loop body. *)
Definition colision (s : Juego) : option bool :=
  match verificar_colisiones s with
  | Some true => Some true
  | Some false => verificar_colision_obstaculos s
  | None => None
  end.

(** One round of the [while True] loop of [ejecutar] (key presses are
    delivered by [pantalla.update()] between two rounds and are modelled
    by [cambiar_direccion] steps of their own). *)
Definition iteracion (s : Juego) (rs : Azar) : option (Juego * Azar) :=
  match verificar_colisiones s with
  | None => None
  | Some true => game_over s rs
  | Some false =>
      match verificar_colision_obstaculos s with
      | None => None
      | Some true => game_over s rs
      | Some false =>
          s ← mover_serpiente s;
          '(s, rs) ← verificar_comida s rs;
          let s := actualizar_efectos_temporales s in
          let s := actualizar_pantalla s in
          Some (s, rs)
      end
  end.

(** The arithmetic of the draws is unfolded by hand in the proofs. *)
Global Arguments randint : simpl never.
Global Arguments alinear : simpl never.
Global Arguments crear_comida_aleatoria : simpl never.
Global Arguments conflicto_obstaculo : simpl never.
Global Arguments conflicto_comida : simpl never.

(** ** Runs of the game *)

(** The four key bindings of [configurar_controles]. *)
Definition teclas : list string := ["arriba"; "abajo"; "izquierda"; "derecha"].

(** States the program can be in at the top of the loop of [ejecutar]:
    the state built by the constructor, and from there any number of key
    presses and loop rounds, each with draws of its own. *)
Inductive alcanzable : Juego → Prop :=
  | alcanzable_inicio rs s rs' :
      iniciar rs = Some (s, rs') → alcanzable s
  | alcanzable_tecla s d :
      alcanzable s → d ∈ teclas → alcanzable (cambiar_direccion d s)
  | alcanzable_iteracion s rs s' rs' :
      alcanzable s → iteracion s rs = Some (s', rs') → alcanzable s'.

(** A continuous session: the rounds that restart the game are left out.
    The index counts the rounds in which the level went up. *)
Definition subidas (s s' : Juego) : nat := if nivel s <? nivel s' then 1 else 0.

Inductive sesion : nat → Juego → Prop :=
  | sesion_inicio rs s rs' :
      iniciar rs = Some (s, rs') → sesion 0 s
  | sesion_tecla n s d :
      sesion n s → d ∈ teclas → sesion n (cambiar_direccion d s)
  | sesion_iteracion n s rs s' rs' :
      sesion n s → colision s = Some false →
      iteracion s rs = Some (s', rs') → sesion (n + subidas s s') s'.

(** *** A scripted player

    To exhibit states that a run really reaches, the draws of each round
    are chosen from the state the round starts in: the next food is a
    [REAL] one put two cells to the right of the head (where the head
    arrives one round after the coming one), obstacles go to the outer
    rows, and the first food after a restart is put at (20, 0).  The snake
    then eats at every round until it leaves the screen on the right. *)

Definition sorteo_celda (c : Z * Z) : Azar := [fst c + 280; snd c + 280].

Definition sorteo_comida (c : Z * Z) (k : Z) : Azar := sorteo_celda c ++ [k].

Definition candidatos : list (Z * Z) :=
  y ← [280; -280; 240; -240; 200; -200];
  x ← (λ i : nat, -280 + 40 * Z.of_nat i) <$> seq 0 15;
  [(x, y)].

Definition guion (s : Juego) : Azar :=
  match colision s, serpiente s !! 0%nat with
  | Some false, Some (x, y) =>
      sorteo_comida (if x + 40 <=? 280 then (x + 40, y) else (-200, y)) 7
      ++ (candidatos ≫= sorteo_celda)
  | _, _ =>
      (take (Z.to_nat ((nivel s - 1) * 2)) candidatos ≫= sorteo_celda)
      ++ sorteo_comida (20, 0) 7
  end.

Fixpoint jugar (n : nat) (s : Juego) : option Juego :=
  match n with
  | O => Some s
  | S n' => '(s', _) ← iteracion s (guion s); jugar n' s'
  end.

Definition partida (n : nat) : option Juego :=
  '(s, _) ← iniciar (sorteo_comida (20, 0) 7); jugar n s.

(** Rounds of the scripted player that stay inside one session, with the
    number of level rises. *)
Fixpoint jugar_sesion (n : nat) (s : Juego) : option (nat * Juego) :=
  match n with
  | O => Some (O, s)
  | S n' =>
      match colision s with
      | Some false =>
          '(s', _) ← iteracion s (guion s);
          '(k, s'') ← jugar_sesion n' s';
          Some ((subidas s s' + k)%nat, s'')
      | _ => None
      end
  end.

Definition partida_sesion (n : nat) : option (nat * Juego) :=
  '(s, _) ← iniciar (sorteo_comida (20, 0) 7); jugar_sesion n s.

(** ** Sample states *)

(** A snake of three segments heading up, in the first level. *)
Definition serpiente_de_tres : Juego :=
  {| serpiente := [(40, 0); (20, 0); (0, 0)];
     obstaculos := [];
     direccion := "arriba";
     puntaje := 2; nivel := 1; juegos_jugados := 0;
     velocidad_actual := 150;
     efecto_temporal := None;
     mensaje_actual := "¡Comida Fit! +1 punto"; tiempo_mensaje := 58;
     color_mensaje := "green";
     comida := Some {| c_tipo := FIT; c_x := 100; c_y := 60 |} |}.

(** The head has just reached a Fit food, with 49 points in level 1. *)
Definition con_49_puntos : Juego :=
  {| serpiente := [(100, 0); (80, 0)];
     obstaculos := [];
     direccion := "derecha";
     puntaje := 49; nivel := 1; juegos_jugados := 0;
     velocidad_actual := 150;
     efecto_temporal := None;
     mensaje_actual := ""; tiempo_mensaje := 0;
     color_mensaje := "orange";
     comida := Some {| c_tipo := FIT; c_x := 100; c_y := 0 |} |}.

(** After ten rounds of the scripted player: the tenth food has brought 50
    points and level 2. *)
Definition tras_subida : Juego :=
  {|
    serpiente :=
      [(200, 0); (180, 0); (160, 0); (140, 0); (
       120, 0); (100, 0); (80, 0); (60, 0); (
       40, 0); (20, 0); (0, 0)];
    obstaculos :=
      [{| o_x := -280; o_y := 280 |}; {| o_x := -240; o_y := 280 |}];
    direccion := "derecha";
    puntaje := 50;
    nivel := 2;
    juegos_jugados := 0;
    velocidad_actual := 170;
    efecto_temporal := Some {| tipo := "rapido"; duracion := 4 |};
    mensaje_actual := "¡NIVEL 2! Más velocidad y obstáculos";
    tiempo_mensaje := 59;
    color_mensaje := "cyan";
    comida := Some {| c_tipo := REAL; c_x := 220; c_y := 0 |}
  |}.

(** After fifteen rounds: the head has left the screen on the right. *)
Definition fuera_de_pantalla : Juego :=
  {|
    serpiente :=
      [(300, 0); (280, 0); (260, 0); (240, 0); (
       220, 0); (200, 0); (180, 0); (160, 0); (
       140, 0); (120, 0); (100, 0); (80, 0); (
       60, 0); (40, 0); (20, 0)];
    obstaculos :=
      [{| o_x := -280; o_y := 280 |}; {| o_x := -240; o_y := 280 |}];
    direccion := "derecha";
    puntaje := 70;
    nivel := 2;
    juegos_jugados := 0;
    velocidad_actual := 290;
    efecto_temporal := Some {| tipo := "rapido"; duracion := 3 |};
    mensaje_actual := "¡Comida Real! +5 puntos (Rápido)";
    tiempo_mensaje := 58;
    color_mensaje := "orange";
    comida := Some {| c_tipo := REAL; c_x := -200; c_y := 0 |}
  |}.

(** In the second game the snake has reached level 3 and left the screen. *)
Definition choque_nivel_3 : Juego :=
  {|
    serpiente :=
      [(300, 0); (280, 0); (260, 0); (240, 0); (
       220, 0); (200, 0); (180, 0); (160, 0); (
       140, 0); (120, 0); (100, 0); (80, 0); (
       60, 0); (40, 0); (20, 0)];
    obstaculos :=
      [{| o_x := -280; o_y := 280 |}; {| o_x := -240; o_y := 280 |};
       {| o_x := -200; o_y := 280 |}; {| o_x := -160; o_y := 280 |};
       {| o_x := -120; o_y := 280 |}; {| o_x := -80; o_y := 280 |}];
    direccion := "derecha";
    puntaje := 140;
    nivel := 3;
    juegos_jugados := 1;
    velocidad_actual := 300;
    efecto_temporal := Some {| tipo := "rapido"; duracion := 3 |};
    mensaje_actual := "¡Comida Real! +5 puntos (Rápido)";
    tiempo_mensaje := 58;
    color_mensaje := "orange";
    comida := Some {| c_tipo := REAL; c_x := -200; c_y := 0 |}
  |}.

(** Level 2, with the effect of the last food in its last round: the player
    of [tras_subida] has turned up and made three rounds. *)
Definition efecto_por_expirar : Juego :=
  {|
    serpiente :=
      [(200, 60); (200, 40); (200, 20); (200, 0); (
       180, 0); (160, 0); (140, 0); (120, 0); (
       100, 0); (80, 0); (60, 0)];
    obstaculos :=
      [{| o_x := -280; o_y := 280 |}; {| o_x := -240; o_y := 280 |}];
    direccion := "arriba";
    puntaje := 50;
    nivel := 2;
    juegos_jugados := 0;
    velocidad_actual := 170;
    efecto_temporal := Some {| tipo := "rapido"; duracion := 1 |};
    mensaje_actual := "¡NIVEL 2! Más velocidad y obstáculos";
    tiempo_mensaje := 56;
    color_mensaje := "cyan";
    comida := Some {| c_tipo := REAL; c_x := 220; c_y := 0 |}
  |}.

(** After ninety rounds and five restarts: the food that brought 400 points
    and level 9 has just been eaten. *)
Definition en_nivel_9 : Juego :=
  {|
    serpiente :=
      [(200, 0); (180, 0); (160, 0); (140, 0); (
       120, 0); (100, 0); (80, 0); (60, 0); (
       40, 0); (20, 0); (0, 0)];
    obstaculos :=
      [{| o_x := -280; o_y := 280 |}; {| o_x := -240; o_y := 280 |};
       {| o_x := -200; o_y := 280 |}; {| o_x := -160; o_y := 280 |};
       {| o_x := -120; o_y := 280 |}; {| o_x := -80; o_y := 280 |};
       {| o_x := -40; o_y := 280 |}; {| o_x := 0; o_y := 280 |};
       {| o_x := 40; o_y := 280 |}; {| o_x := 80; o_y := 280 |};
       {| o_x := 120; o_y := 280 |}; {| o_x := 160; o_y := 280 |};
       {| o_x := 200; o_y := 280 |}; {| o_x := 240; o_y := 280 |};
       {| o_x := 280; o_y := 280 |}; {| o_x := -280; o_y := -280 |};
       {| o_x := -240; o_y := -280 |}; {| o_x := -200; o_y := -280 |};
       {| o_x := -160; o_y := -280 |}; {| o_x := -120; o_y := -280 |};
       {| o_x := -80; o_y := -280 |}; {| o_x := -40; o_y := -280 |};
       {| o_x := 0; o_y := -280 |}; {| o_x := 40; o_y := -280 |};
       {| o_x := 80; o_y := -280 |}; {| o_x := 120; o_y := -280 |};
       {| o_x := 160; o_y := -280 |}; {| o_x := 200; o_y := -280 |};
       {| o_x := 240; o_y := -280 |}; {| o_x := 280; o_y := -280 |}];
    direccion := "derecha";
    puntaje := 400;
    nivel := 9;
    juegos_jugados := 5;
    velocidad_actual := 310;
    efecto_temporal := Some {| tipo := "rapido"; duracion := 4 |};
    mensaje_actual := "¡NIVEL 9! Más velocidad y obstáculos";
    tiempo_mensaje := 59;
    color_mensaje := "cyan";
    comida := Some {| c_tipo := REAL; c_x := 220; c_y := 0 |}
  |}.

(** The state [choque_nivel_3] is restarted into. *)
Definition reiniciado_nivel_3 : Juego :=
  {| serpiente := [(0, 0)];
     obstaculos := [{| o_x := -280; o_y := 280 |}; {| o_x := -240; o_y := 280 |};
                    {| o_x := -200; o_y := 280 |}; {| o_x := -160; o_y := 280 |}];
     direccion := "derecha";
     puntaje := 140; nivel := 3; juegos_jugados := 2;
     velocidad_actual := 190;
     efecto_temporal := None;
     mensaje_actual := "¡Juego Reiniciado! Partida #2";
     tiempo_mensaje := 60;
     color_mensaje := "yellow";
     comida := Some {| c_tipo := REAL; c_x := 20; c_y := 0 |} |}.

(** ** Notions of the specification *)

(** The exact opposite of a direction. *)
Inductive Opuesta : string → string → Prop :=
  | opuesta_arriba : Opuesta "arriba" "abajo"
  | opuesta_abajo : Opuesta "abajo" "arriba"
  | opuesta_izquierda : Opuesta "izquierda" "derecha"
  | opuesta_derecha : Opuesta "derecha" "izquierda".

(** The unit step of a direction, in cells. *)
Definition paso_unitario (d : string) : option (Z * Z) :=
  if decide (d = "arriba") then Some (0, 1)
  else if decide (d = "abajo") then Some (0, -1)
  else if decide (d = "izquierda") then Some (-1, 0)
  else if decide (d = "derecha") then Some (1, 0)
  else None.

(** Two points are within the clearance [d] when they are nearer than [d]
    on both axes. *)
Definition cerca (d : Z) (a b : Z * Z) : Prop :=
  Z.abs (fst a - fst b) < d ∧ Z.abs (snd a - snd b) < d.

(** Cells of the grid inside the area where food and obstacles are put. *)
Definition en_cuadricula (x : Z) : Prop := (TAMAÑO_CELDA | x) ∧ -280 ≤ x ≤ 280.

(** An obstacle as [generar_obstaculos] accepts it next to the list [obs]. *)
Definition obstaculo_valido (obs : list Obstaculo) (o : Obstaculo) : Prop :=
  en_cuadricula (o_x o) ∧ en_cuadricula (o_y o)
  ∧ (40 < Z.abs (o_x o) ∨ 40 < Z.abs (o_y o))
  ∧ conflicto_obstaculo (o_x o) (o_y o) obs = false.

(** A batch that can be added to [obs] one obstacle after the other. *)
Fixpoint lote_valido (obs lote : list Obstaculo) : Prop :=
  match lote with
  | [] => True
  | o :: lote' => obstaculo_valido obs o ∧ lote_valido (obs ++ [o]) lote'
  end.

(** The draws that make the placement loop pick the batch. *)
Definition sorteo_lote (lote : list Obstaculo) : Azar :=
  o ← lote; sorteo_celda (o_x o, o_y o).

(** The state a level rise leads to, except for the obstacles. *)
Definition subir_nivel (s : Juego) : Juego :=
  let nuevo_nivel := puntaje s `div` PUNTOS_POR_NIVEL + 1 in
  mostrar_mensaje
    ("¡NIVEL " +:+ pretty nuevo_nivel +:+ "! Más velocidad y obstáculos") "cyan"
    (con_velocidad (VELOCIDAD_BASE + (nuevo_nivel - 1) * 20)
       (con_nivel nuevo_nivel s)).

(** What holds of every state of a run. *)
Definition invariante (s : Juego) : Prop :=
  (1 ≤ length (serpiente s))%nat
  ∧ 0 ≤ puntaje s
  ∧ 1 ≤ nivel s
  ∧ puntaje s `div` PUNTOS_POR_NIVEL + 1 ≤ nivel s
  ∧ 50 ≤ velocidad_actual s ≤ Z.max 300 (velocidad_nivel (nivel s)).

(** In a round without restart, an effect that was active before the
    round and is gone after it has run out in that round. *)
Definition expira (s s' : Juego) : Prop :=
  efecto_temporal s ≠ None ∧ efecto_temporal s' = None.

(** States in which no effect has run out in a level above the first
    since the last restart or level rise. *)
Inductive limpio : Juego → Prop :=
  | limpio_inicio rs s rs' :
      iniciar rs = Some (s, rs') → limpio s
  | limpio_tecla s d :
      limpio s → d ∈ teclas → limpio (cambiar_direccion d s)
  | limpio_reinicio s rs s' rs' :
      alcanzable s → colision s = Some true →
      iteracion s rs = Some (s', rs') → limpio s'
  | limpio_subida s rs s' rs' :
      alcanzable s → colision s = Some false →
      iteracion s rs = Some (s', rs') →
      nivel s < nivel s' → ¬ expira s s' → limpio s'
  | limpio_iteracion s rs s' rs' :
      limpio s → colision s = Some false →
      iteracion s rs = Some (s', rs') →
      ¬ (expira s s' ∧ 2 ≤ nivel s') → limpio s'.

(** The sum [1 + 2 + ... + n]. *)
Fixpoint suma_hasta (n : nat) : nat :=
  match n with
  | O => O
  | S m => (suma_hasta m + S m)%nat
  end.

(** The sum [0 + 1 + ... + (n - 1)]. *)
Definition suma_bajo (n : nat) : nat := suma_hasta (pred n).

(** ** Notions for the properties of whole runs *)

(** A position on the grid. *)
Definition alineado (p : Pos) : Prop :=
  (TAMAÑO_CELDA | fst p) ∧ (TAMAÑO_CELDA | snd p).

(** A grid position at most one cell outside the screen. *)
Definition celda_valida (p : Pos) : Prop :=
  alineado p ∧ -300 ≤ fst p ≤ 300 ∧ -300 ≤ snd p ≤ 300.

Definition posicion_obstaculo (o : Obstaculo) : Pos := (o_x o, o_y o).

Definition posicion_comida (c : Comida) : Pos := (c_x c, c_y c).

(** An effect of one of the two kinds, with at most [dmax] rounds left. *)
Definition efecto_valido (dmax : Z) (e : Efecto) : Prop :=
  (tipo e = "lento" ∨ tipo e = "rapido") ∧ 1 ≤ duracion e ≤ dmax.

(** What holds of snake, obstacles, food, direction, effect and message
    timer during a run; [dmax] is 5 between the food and the update of
    the effects, and 4 at the top of the loop. *)
Definition tablero (dmax : Z) (s : Juego) : Prop :=
  Forall celda_valida (serpiente s)
  ∧ lote_valido [] (obstaculos s)
  ∧ (∃ c, comida s = Some c ∧ en_cuadricula (c_x c) ∧ en_cuadricula (c_y c))
  ∧ direccion s ∈ teclas
  ∧ (∀ e, efecto_temporal s = Some e → efecto_valido dmax e)
  ∧ 0 ≤ tiempo_mensaje s ≤ 60.

Definition invariante_tablero (s : Juego) : Prop := tablero 4 s.

(** Several foods eaten one after the other. *)
Definition aplicar_efectos (cs : list Comida) (s : Juego) : Juego :=
  foldl (λ s c, aplicar_efecto c s) s cs.


(** The suffix of the status line written by [actualizar_pantalla]: the
    [if]/[elif] on the kind of the active effect. *)
Definition efecto_texto (s : Juego) : string :=
  match efecto_temporal s with
  | Some e =>
      if String.eqb (tipo e) "lento" then " (LENTO)"
      else if String.eqb (tipo e) "rapido" then " (RÁPIDO)"
      else ""
  | None => ""
  end.

(** The status line itself. *)
Definition texto_puntaje (s : Juego) : string :=
  "Puntaje: " +:+ pretty (puntaje s) +:+ " | Nivel: " +:+ pretty (nivel s)
  +:+ " | Partidas: " +:+ pretty (juegos_jugados s) +:+ efecto_texto s.

(** * Properties *)

(** ** The functions on small inputs *)

(** [round] takes halves to the even neighbour: 0.5 to 0, 1.5 and 2.5
    to 2. *)
Example alinear_mitades :
  alinear <$> [10; 30; 50; -10; -30; 29; 31; 280] = [0; 40; 40; 0; -40; 20; 40; 280].
Proof. reflexivity. Qed.

Example randint_ejemplo : randint (-280) 280 300 = 20.
Proof. reflexivity. Qed.

(** The weights 4, 3, 2, 1 of the four foods. *)
Example choice_tipos_comida :
  choice tipos_comida <$> [0; 1; 2; 3; 4; 5; 6; 7; 8; 9]
  = [FIT; FIT; FIT; FIT; ALTO_GRASAS; ALTO_GRASAS; ALTO_GRASAS; REAL; REAL;
     VENENOSA].
Proof. reflexivity. Qed.

Example iniciar_ejemplo :
  iniciar [300; 280; 7]
  = Some ({| serpiente := [(0, 0)]; obstaculos := []; direccion := "derecha";
             puntaje := 0; nivel := 1; juegos_jugados := 0;
             velocidad_actual := 150; efecto_temporal := None;
             mensaje_actual := ""; tiempo_mensaje := 0;
             color_mensaje := "white";
             comida := Some {| c_tipo := REAL; c_x := 20; c_y := 0 |} |}, []).
Proof. vm_compute. reflexivity. Qed.

(** A food drawn onto the head is thrown away and the next one is taken. *)
Example generar_nueva_comida_rechaza :
  comida <$> (fst <$> generar_nueva_comida tras_subida [480; 280; 0; 500; 280; 9])
  = Some (Some {| c_tipo := VENENOSA; c_x := 220; c_y := 0 |}).
Proof. vm_compute. reflexivity. Qed.

(** An obstacle drawn onto the centre is thrown away as well. *)
Example colocar_obstaculo_rechaza :
  colocar_obstaculo [] [280; 280; 0; 560] = Some ([{| o_x := -280; o_y := 280 |}], []).
Proof. vm_compute. reflexivity. Qed.

(** A poisonous food on a snake that is only a head: nothing but the
    message changes. *)
Example venenosa_sin_efecto (s : Juego) (c : Comida) :
  c_tipo c = VENENOSA → length (serpiente s) = 1%nat →
  aplicar_efecto c s = mostrar_mensaje "¡Comida Venenosa! Sin efecto" "purple" s.
Proof. intros Hc Hl. unfold aplicar_efecto. by rewrite Hc, Hl. Qed.

(** The draws run out while the loop is still looking for a cell. *)
Example generar_nueva_comida_agotado :
  generar_nueva_comida tras_subida [480; 280; 0; 500; 280] = None.
Proof. vm_compute. reflexivity. Qed.

(** ** Directions *)

Lemma direcciones_opuestas_lookup (d n : string) :
  direcciones_opuestas !! d = Some n ↔ Opuesta d n.
Proof.
  unfold direcciones_opuestas. split.
  - rewrite !lookup_insert. repeat case_decide; subst;
      rewrite ?lookup_empty; intros [= <-]; constructor.
  - intros []; reflexivity.
Qed.

Lemma cambiar_direccion_opuesta (s : Juego) (nueva : string) :
  Opuesta (direccion s) nueva → cambiar_direccion nueva s = s.
Proof.
  intros H. apply direcciones_opuestas_lookup in H.
  unfold cambiar_direccion. rewrite H. case_decide; [congruence | done].
Qed.

Lemma cambiar_direccion_aceptada (s : Juego) (nueva : string) :
  ¬ Opuesta (direccion s) nueva →
  cambiar_direccion nueva s = con_direccion nueva s.
Proof.
  intros H. unfold cambiar_direccion. case_decide as Hd; [done |].
  exfalso. by apply H, direcciones_opuestas_lookup.
Qed.

Lemma Opuesta_irrefl (d : string) : ¬ Opuesta d d.
Proof. intros H. inversion H. Qed.

(** C9.  A direction input is rejected, and the whole state stays as it
    is, when it is the exact opposite of the stored direction; every other
    input becomes the stored direction (nothing else changes), also when it
    is the stored direction itself.  With "derecha" stored, "izquierda" is
    rejected. *)
Theorem cambiar_direccion_regla (s : Juego) (nueva : string) :
  (Opuesta (direccion s) nueva → cambiar_direccion nueva s = s)
  ∧ (¬ Opuesta (direccion s) nueva →
       cambiar_direccion nueva s = con_direccion nueva s
       ∧ direccion (cambiar_direccion nueva s) = nueva)
  ∧ direccion (cambiar_direccion (direccion s) s) = direccion s
  ∧ (direccion s = "derecha" →
       direccion (cambiar_direccion "izquierda" s) = "derecha").
Proof.
  split; [apply cambiar_direccion_opuesta |].
  split.
  { intros H. rewrite cambiar_direccion_aceptada by done. done. }
  split.
  { rewrite cambiar_direccion_aceptada; [done | apply Opuesta_irrefl]. }
  intros Hd. rewrite cambiar_direccion_opuesta; [done |].
  rewrite Hd. constructor.
Qed.

(** ** Movement *)

Lemma desplazar_cuerpo_length (i : nat) (l : list Pos) :
  length (desplazar_cuerpo i l) = length l.
Proof.
  revert l. induction i as [| j IH]; intros l; simpl; [done |].
  destruct (l !! j); [| done]. by rewrite IH, length_insert.
Qed.

(** After the loop has run from index [i] down to 1, the segments 1..[i]
    hold what their predecessors held before; the others are untouched. *)
Lemma desplazar_cuerpo_lookup (i : nat) (l : list Pos) (k : nat) :
  (i < length l)%nat →
  desplazar_cuerpo i l !! k =
    if decide (1 ≤ k ≤ i)%nat then l !! (k - 1)%nat else l !! k.
Proof.
  revert l. induction i as [| j IH]; intros l Hi; simpl.
  { case_decide; [lia | done]. }
  destruct (lookup_lt_is_Some_2 l j) as [a Ha]; [lia |]. rewrite Ha.
  rewrite IH by (rewrite length_insert; lia).
  destruct (decide (k = S j)) as [-> | Hk].
  - rewrite decide_False by lia. rewrite decide_True by lia.
    rewrite list_lookup_insert_eq by lia.
    by replace (S j - 1)%nat with j by lia.
  - repeat case_decide; try lia;
      by rewrite list_lookup_insert_ne by lia.
Qed.

Lemma nueva_posicion_paso (d : string) (dx dy x y : Z) :
  paso_unitario d = Some (dx, dy) →
  nueva_posicion d (x, y) = (x + dx * TAMAÑO_CELDA, y + dy * TAMAÑO_CELDA).
Proof.
  unfold paso_unitario, nueva_posicion, TAMAÑO_CELDA.
  repeat case_decide; subst; simpl; intros [= <- <-]; f_equal; lia.
Qed.

(** What [mover_serpiente] does to a snake with head [cabeza]. *)
Lemma mover_serpiente_eq (s : Juego) (cabeza : Pos) :
  serpiente s !! 0%nat = Some cabeza →
  ∃ l, mover_serpiente s = Some (con_serpiente l s)
     ∧ length l = length (serpiente s)
     ∧ l !! 0%nat = Some (nueva_posicion (direccion s) cabeza)
     ∧ ∀ i, (1 ≤ i < length (serpiente s))%nat →
         l !! i = serpiente s !! (i - 1)%nat.
Proof.
  intros Hc. unfold mover_serpiente. rewrite Hc. simpl.
  eexists. split; [reflexivity |].
  assert (0 < length (serpiente s))%nat as Hlen
    by (apply lookup_lt_is_Some_1; eauto).
  split; [by rewrite length_insert, desplazar_cuerpo_length |].
  split.
  - rewrite list_lookup_insert_eq; [done |].
    rewrite desplazar_cuerpo_length. lia.
  - intros i Hi. rewrite list_lookup_insert_ne by lia.
    rewrite desplazar_cuerpo_lookup by lia.
    by rewrite decide_True by lia.
Qed.

(** C6.  For a snake of length n >= 1 and each of the four directions, one
    advance puts the head one cell ([TAMAÑO_CELDA]) further in the current
    direction, puts every later segment i (1 <= i < n) where segment i-1
    was before the advance, keeps the length, and changes nothing else of
    the state. *)
Theorem mover_serpiente_avanza (s : Juego) (x y dx dy : Z) :
  serpiente s !! 0%nat = Some (x, y) →
  paso_unitario (direccion s) = Some (dx, dy) →
  ∃ l, mover_serpiente s = Some (con_serpiente l s)
     ∧ length l = length (serpiente s)
     ∧ l !! 0%nat = Some (x + dx * TAMAÑO_CELDA, y + dy * TAMAÑO_CELDA)
     ∧ ∀ i, (1 ≤ i < length (serpiente s))%nat →
         l !! i = serpiente s !! (i - 1)%nat.
Proof.
  intros Hc Hd.
  destruct (mover_serpiente_eq s (x, y) Hc) as (l & Hm & Hlen & H0 & Hi).
  exists l. rewrite (nueva_posicion_paso _ _ _ _ _ Hd) in H0. done.
Qed.

(** A snake of three segments moving up. *)
Lemma mover_serpiente_avanza_witness :
  serpiente serpiente_de_tres !! 0%nat = Some (40, 0)
  ∧ paso_unitario (direccion serpiente_de_tres) = Some (0, 1)
  ∧ ∃ l, mover_serpiente serpiente_de_tres
           = Some (con_serpiente l serpiente_de_tres)
       ∧ length l = length (serpiente serpiente_de_tres)
       ∧ l !! 0%nat = Some (40 + 0 * TAMAÑO_CELDA, 0 + 1 * TAMAÑO_CELDA)
       ∧ ∀ i, (1 ≤ i < length (serpiente serpiente_de_tres))%nat →
           l !! i = serpiente serpiente_de_tres !! (i - 1)%nat.
Proof.
  split; [reflexivity |]. split; [reflexivity |].
  apply (mover_serpiente_avanza serpiente_de_tres 40 0 0 1); reflexivity.
Defined.

Lemma no_opuesta_derecha_arriba : ¬ Opuesta "derecha" "arriba".
Proof. intros H. inversion H. Qed.

Lemma no_opuesta_arriba_izquierda : ¬ Opuesta "arriba" "izquierda".
Proof. intros H. inversion H. Qed.

(** C10.  The guard of [cambiar_direccion] looks at the stored direction
    only.  After an advance to the right, the inputs "arriba" and then
    "izquierda" are both accepted before the next advance (while
    "izquierda" alone is rejected), so the next advance goes to the left,
    the exact opposite of the previous one, and the head returns to the
    cell it has just left. *)
Theorem inversion_entre_avances (s : Juego) (cabeza : Pos) :
  direccion s = "derecha" →
  serpiente s !! 0%nat = Some cabeza →
  ∃ s1 s4,
    mover_serpiente s = Some s1
    ∧ serpiente s1 !! 0%nat = Some (fst cabeza + TAMAÑO_CELDA, snd cabeza)
    ∧ cambiar_direccion "izquierda" s1 = s1
    ∧ direccion (cambiar_direccion "arriba" s1) = "arriba"
    ∧ direccion (cambiar_direccion "izquierda"
                   (cambiar_direccion "arriba" s1)) = "izquierda"
    ∧ Opuesta (direccion s1)
        (direccion (cambiar_direccion "izquierda"
                      (cambiar_direccion "arriba" s1)))
    ∧ mover_serpiente (cambiar_direccion "izquierda"
                         (cambiar_direccion "arriba" s1)) = Some s4
    ∧ serpiente s4 !! 0%nat = Some cabeza.
Proof.
  intros Hd Hc. destruct cabeza as [x y].
  destruct (mover_serpiente_eq s (x, y) Hc) as (l & Hm & Hlen & H0 & _).
  rewrite Hd in H0. change (l !! 0%nat = Some (x + TAMAÑO_CELDA, y)) in H0.
  set (s1 := con_serpiente l s) in *.
  assert (direccion s1 = "derecha") as Hd1 by done.
  assert (cambiar_direccion "arriba" s1 = con_direccion "arriba" s1) as E2.
  { apply cambiar_direccion_aceptada. rewrite Hd1.
    apply no_opuesta_derecha_arriba. }
  assert (cambiar_direccion "izquierda" (con_direccion "arriba" s1)
          = con_direccion "izquierda" (con_direccion "arriba" s1)) as E3.
  { apply cambiar_direccion_aceptada. apply no_opuesta_arriba_izquierda. }
  destruct (mover_serpiente_eq
              (con_direccion "izquierda" (con_direccion "arriba" s1))
              (x + TAMAÑO_CELDA, y) H0) as (l' & Hm' & _ & H0' & _).
  exists s1, (con_serpiente l'
                (con_direccion "izquierda" (con_direccion "arriba" s1))).
  rewrite E2, E3. repeat split; try done.
  - apply cambiar_direccion_opuesta. rewrite Hd1. constructor.
  - rewrite Hd1. constructor.
  - simpl. rewrite H0'. unfold nueva_posicion, TAMAÑO_CELDA. simpl.
    do 2 f_equal. lia.
Qed.

(** A snake of two segments heading right. *)
Lemma inversion_entre_avances_witness :
  direccion con_49_puntos = "derecha"
  ∧ serpiente con_49_puntos !! 0%nat = Some (100, 0)
  ∧ ∃ s1 s4,
      mover_serpiente con_49_puntos = Some s1
      ∧ serpiente s1 !! 0%nat = Some (fst (100, 0) + TAMAÑO_CELDA, snd (100, 0))
      ∧ cambiar_direccion "izquierda" s1 = s1
      ∧ direccion (cambiar_direccion "arriba" s1) = "arriba"
      ∧ direccion (cambiar_direccion "izquierda"
                     (cambiar_direccion "arriba" s1)) = "izquierda"
      ∧ Opuesta (direccion s1)
          (direccion (cambiar_direccion "izquierda"
                        (cambiar_direccion "arriba" s1)))
      ∧ mover_serpiente (cambiar_direccion "izquierda"
                           (cambiar_direccion "arriba" s1)) = Some s4
      ∧ serpiente s4 !! 0%nat = Some (100, 0).
Proof.
  split; [reflexivity |]. split; [reflexivity |].
  apply (inversion_entre_avances con_49_puntos (100, 0)); reflexivity.
Defined.

(** ** Temporary effects *)

(** C1 (the code departs from it).  When the counter of the active effect
    reaches zero, [actualizar_efectos_temporales] clears the effect and
    sets the speed to [VELOCIDAD_BASE]; that is the speed of the level
    only in level 1. *)
Theorem expiracion_velocidad_base (s : Juego) (e : Efecto) :
  efecto_temporal s = Some e →
  duracion e ≤ 1 →
  efecto_temporal (actualizar_efectos_temporales s) = None
  ∧ nivel (actualizar_efectos_temporales s) = nivel s
  ∧ velocidad_actual (actualizar_efectos_temporales s) = VELOCIDAD_BASE
  ∧ (velocidad_actual (actualizar_efectos_temporales s)
       = velocidad_nivel (nivel s) ↔ nivel s = 1).
Proof.
  intros He Hd. unfold actualizar_efectos_temporales. rewrite He. simpl.
  rewrite (proj2 (Z.leb_le _ _)) by lia. simpl.
  repeat split; unfold velocidad_nivel, VELOCIDAD_BASE; lia.
Qed.

(** In level 2 the speed falls to 150 instead of staying at 170. *)
Lemma expiracion_velocidad_base_witness :
  efecto_temporal efecto_por_expirar = Some {| tipo := "rapido"; duracion := 1 |}
  ∧ 1 ≤ 1
  ∧ velocidad_actual (actualizar_efectos_temporales efecto_por_expirar) = 150
  ∧ velocidad_nivel (nivel efecto_por_expirar) = 170.
Proof.
  split; [reflexivity |]. split; [lia |].
  destruct (expiracion_velocidad_base efecto_por_expirar
              {| tipo := "rapido"; duracion := 1 |})
    as (_ & _ & Hv & _); [reflexivity | simpl; lia |].
  split; [exact Hv | reflexivity].
Defined.

(** ** Placement loops *)

(** Induction over the draws, two or three at a time, as the loops read
    them. *)
Lemma azar_ind2 (P : Azar → Prop) :
  P [] → (∀ a, P [a]) → (∀ a b rs, P rs → P (a :: b :: rs)) → ∀ rs, P rs.
Proof.
  intros H0 H1 H2 rs.
  enough (P rs ∧ ∀ a, P (a :: rs)) as [H _] by exact H.
  induction rs as [| b rs [IH1 IH2]]; split; auto.
Qed.

Lemma azar_ind3 (P : Azar → Prop) :
  P [] → (∀ a, P [a]) → (∀ a b, P [a; b]) →
  (∀ a b c rs, P rs → P (a :: b :: c :: rs)) → ∀ rs, P rs.
Proof.
  intros H0 H1 H2 H3 rs.
  enough (P rs ∧ (∀ a, P (a :: rs)) ∧ ∀ a b, P (a :: b :: rs)) as [H _]
    by exact H.
  induction rs as [| c rs (IH1 & IH2 & IH3)]; repeat split; auto.
Qed.

Lemma randint_rango (lo hi r : Z) : lo ≤ hi → lo ≤ randint lo hi r ≤ hi.
Proof.
  intros H. unfold randint.
  pose proof (Z.mod_pos_bound r (hi - lo + 1)). lia.
Qed.

(** Every integer of the range is the outcome of some draw. *)
Lemma randint_sobre (lo hi v : Z) :
  lo ≤ v ≤ hi → randint lo hi (v - lo) = v.
Proof. intros H. unfold randint. rewrite Z.mod_small; lia. Qed.

Lemma alinear_cuadricula (x : Z) : -280 ≤ x ≤ 280 → en_cuadricula (alinear x).
Proof.
  intros Hx. unfold en_cuadricula, alinear, redondear_cociente, TAMAÑO_CELDA.
  split; [apply Z.divide_factor_r |].
  pose proof (Z.div_mod x 20 ltac:(lia)) as Hdm.
  pose proof (Z.mod_pos_bound x 20 ltac:(lia)) as Hm.
  repeat case_match; lia.
Qed.

(** A cell of the grid is left where it is. *)
Lemma alinear_fijo (x : Z) : (TAMAÑO_CELDA | x) → alinear x = x.
Proof.
  intros [k ->]. unfold alinear, redondear_cociente, TAMAÑO_CELDA.
  rewrite Z.div_mul, Z.mod_mul by lia. simpl. lia.
Qed.

Lemma alinear_randint_sorteo (x : Z) :
  en_cuadricula x → alinear (randint (-280) 280 (x + 280)) = x.
Proof.
  intros [Hd Hr]. replace (x + 280) with (x - -280) by lia.
  rewrite randint_sobre by lia. by apply alinear_fijo.
Qed.

Lemma colocar_obstaculo_Some (obs : list Obstaculo) (rs : Azar) obs' rs' :
  colocar_obstaculo obs rs = Some (obs', rs') →
  ∃ o, obs' = obs ++ [o] ∧ obstaculo_valido obs o.
Proof.
  revert obs' rs'. induction rs as [| a | a b rs IH] using azar_ind2;
    intros obs' rs' H; simpl in H; try done.
  destruct (_ || _) eqn:Hc; [| by eauto].
  destruct (conflicto_obstaculo _ _ _) eqn:Hk; [by eauto |].
  injection H as <- <-. eexists. split; [done |].
  split; [apply alinear_cuadricula, randint_rango; lia |].
  split; [apply alinear_cuadricula, randint_rango; lia |].
  split; [| done]. simpl.
  apply orb_true_iff in Hc. destruct Hc as [Hc | Hc];
    apply Z.ltb_lt in Hc; auto.
Qed.

Lemma colocar_obstaculos_Some (n : nat) (obs : list Obstaculo) (rs : Azar)
    obs' rs' :
  colocar_obstaculos n obs rs = Some (obs', rs') →
  ∃ lote, obs' = obs ++ lote ∧ length lote = n.
Proof.
  revert obs rs. induction n as [| n IH]; intros obs rs H; simpl in H.
  { injection H as <- <-. exists []. by rewrite app_nil_r. }
  destruct (colocar_obstaculo obs rs) as [[obs1 rs1] |] eqn:H1; [| done].
  simpl in H. apply colocar_obstaculo_Some in H1 as (o & -> & _).
  apply IH in H as (lote & -> & Hl).
  exists (o :: lote). rewrite <- app_assoc. simpl. by rewrite Hl.
Qed.

(** A free cell, once drawn, ends the loop. *)
Lemma colocar_obstaculo_sorteo (obs : list Obstaculo) (o : Obstaculo) (rs : Azar) :
  obstaculo_valido obs o →
  colocar_obstaculo obs (sorteo_celda (o_x o, o_y o) ++ rs)
  = Some (obs ++ [o], rs).
Proof.
  intros (Hx & Hy & Hc & Hk). simpl.
  rewrite !alinear_randint_sorteo by done. rewrite Hk.
  destruct o as [x y]; simpl in *.
  destruct Hc as [Hc | Hc]; apply Z.ltb_lt in Hc; rewrite Hc; simpl;
    [done | by rewrite orb_true_r].
Qed.

Lemma generar_obstaculos_Some (s : Juego) (rs : Azar) s' rs' :
  generar_obstaculos s rs = Some (s', rs') →
  ∃ lote, s' = con_obstaculos (obstaculos s ++ lote) s
        ∧ length lote = Z.to_nat ((nivel s - 1) * 2).
Proof.
  unfold generar_obstaculos. intros H.
  destruct (colocar_obstaculos _ _ _) as [[obs1 rs1] |] eqn:H1; [| done].
  simpl in H. injection H as <- <-.
  apply colocar_obstaculos_Some in H1 as (lote & -> & Hl). eauto.
Qed.

(** ** Food placement *)

Lemma crear_comida_aleatoria_cuadricula (rx ry rk : Z) :
  en_cuadricula (c_x (crear_comida_aleatoria rx ry rk))
  ∧ en_cuadricula (c_y (crear_comida_aleatoria rx ry rk)).
Proof.
  unfold crear_comida_aleatoria; simpl.
  split; apply alinear_cuadricula, randint_rango; lia.
Qed.

Lemma crear_comida_aleatoria_sorteo (x y k : Z) :
  en_cuadricula x → en_cuadricula y →
  crear_comida_aleatoria (x + 280) (y + 280) k
  = {| c_tipo := choice tipos_comida k; c_x := x; c_y := y |}.
Proof.
  intros Hx Hy. unfold crear_comida_aleatoria.
  by rewrite !alinear_randint_sorteo.
Qed.

Lemma existsb_false_elem_of {A} (f : A → bool) (l : list A) :
  existsb f l = false ↔ ∀ a, a ∈ l → f a = false.
Proof.
  induction l as [| b l IH]; simpl.
  - split; [intros _ a Ha; by apply elem_of_nil in Ha | done].
  - rewrite orb_false_iff, IH. split.
    + intros [Hb Hl] a Ha. apply elem_of_cons in Ha as [-> | Ha]; auto.
    + intros H. split; [apply H; left | intros a Ha; apply H; by right].
Qed.

Lemma cerca_bool (d : Z) (a b : Z * Z) :
  (Z.abs (fst a - fst b) <? d) && (Z.abs (snd a - snd b) <? d) = false
  ↔ ¬ cerca d a b.
Proof.
  unfold cerca. rewrite andb_false_iff, !Z.ltb_ge. lia.
Qed.

(** The test of [generar_nueva_comida] fails exactly when the food keeps
    the clearance of 20 from every obstacle and every segment. *)
Lemma conflicto_comida_false (c : Comida) (s : Juego) :
  conflicto_comida c s = false ↔
    (∀ o, o ∈ obstaculos s → ¬ cerca 20 (c_x c, c_y c) (o_x o, o_y o))
    ∧ (∀ seg, seg ∈ serpiente s → ¬ cerca 20 (c_x c, c_y c) seg).
Proof.
  unfold conflicto_comida.
  rewrite orb_false_iff, !existsb_false_elem_of.
  split; intros [Ho Hs]; split; intros a Ha.
  - apply (cerca_bool 20 (c_x c, c_y c) (o_x a, o_y a)). by apply Ho.
  - apply (cerca_bool 20 (c_x c, c_y c) a). by apply Hs.
  - apply (cerca_bool 20 (c_x c, c_y c) (o_x a, o_y a)). by apply Ho.
  - apply (cerca_bool 20 (c_x c, c_y c) a). by apply Hs.
Qed.

Lemma generar_nueva_comida_Some (s : Juego) (rs : Azar) s' rs' :
  generar_nueva_comida s rs = Some (s', rs') →
  ∃ c, s' = con_comida (Some c) s
     ∧ en_cuadricula (c_x c) ∧ en_cuadricula (c_y c)
     ∧ conflicto_comida c s = false.
Proof.
  revert s' rs'. induction rs as [| a | a b | a b k rs IH] using azar_ind3;
    intros s' rs' H; simpl in H; try done.
  destruct (conflicto_comida _ _) eqn:Hk; [by eauto |].
  injection H as <- <-. eexists. split; [done |].
  pose proof (crear_comida_aleatoria_cuadricula a b k) as [Hx Hy]. done.
Qed.

(** A free cell, once drawn, ends the loop. *)
Lemma generar_nueva_comida_sorteo (s : Juego) (x y k : Z) (rs : Azar) :
  en_cuadricula x → en_cuadricula y →
  conflicto_comida {| c_tipo := choice tipos_comida k; c_x := x; c_y := y |} s
    = false →
  generar_nueva_comida s (sorteo_comida (x, y) k ++ rs)
  = Some (con_comida
            (Some {| c_tipo := choice tipos_comida k; c_x := x; c_y := y |}) s,
          rs).
Proof.
  intros Hx Hy Hk. simpl.
  rewrite crear_comida_aleatoria_sorteo by done. by rewrite Hk.
Qed.

(** C8.  Every food that [generar_nueva_comida] returns lies on a cell of
    the grid (both coordinates multiples of [TAMAÑO_CELDA], within
    -280..280) and keeps the clearance of 20 from every obstacle and from
    every snake segment of the state it is called in, whatever that state
    is; obstacles and snake are left as they are.  And the procedure does
    return: a free cell of the grid, once drawn, is accepted at once. *)
Theorem generar_nueva_comida_despejada (s : Juego) :
  (∀ rs s' rs',
     generar_nueva_comida s rs = Some (s', rs') →
     ∃ c, s' = con_comida (Some c) s
        ∧ (TAMAÑO_CELDA | c_x c) ∧ (TAMAÑO_CELDA | c_y c)
        ∧ -280 ≤ c_x c ≤ 280 ∧ -280 ≤ c_y c ≤ 280
        ∧ (∀ o, o ∈ obstaculos s → ¬ cerca 20 (c_x c, c_y c) (o_x o, o_y o))
        ∧ (∀ seg, seg ∈ serpiente s → ¬ cerca 20 (c_x c, c_y c) seg))
  ∧ (∀ x y k rs,
       en_cuadricula x → en_cuadricula y →
       (∀ o, o ∈ obstaculos s → ¬ cerca 20 (x, y) (o_x o, o_y o)) →
       (∀ seg, seg ∈ serpiente s → ¬ cerca 20 (x, y) seg) →
       ∃ c, generar_nueva_comida s (sorteo_comida (x, y) k ++ rs)
              = Some (con_comida (Some c) s, rs)
          ∧ c_x c = x ∧ c_y c = y).
Proof.
  split.
  - intros rs s' rs' H.
    apply generar_nueva_comida_Some in H as (c & -> & [Hx1 Hx2] & [Hy1 Hy2] & Hk).
    apply conflicto_comida_false in Hk as [Ho Hs].
    exists c. done.
  - intros x y k rs Hx Hy Ho Hs. eexists. split.
    + apply generar_nueva_comida_sorteo; [done | done |].
      apply conflicto_comida_false. done.
    + done.
Qed.

(** ** Levels *)

Lemma colocar_obstaculos_sorteo (obs lote : list Obstaculo) (rs : Azar) :
  lote_valido obs lote →
  colocar_obstaculos (length lote) obs (sorteo_lote lote ++ rs)
  = Some (obs ++ lote, rs).
Proof.
  revert obs. induction lote as [| o lote IH]; intros obs Hv.
  { simpl. by rewrite app_nil_r. }
  destruct Hv as [Ho Hl].
  change (sorteo_lote (o :: lote) ++ rs)
    with (sorteo_celda (o_x o, o_y o) ++ (sorteo_lote lote ++ rs)).
  cbn [length colocar_obstaculos].
  rewrite colocar_obstaculo_sorteo by done. simpl.
  rewrite IH by done. by rewrite <- app_assoc.
Qed.

Lemma verificar_subida_nivel_igual (s : Juego) (rs : Azar) :
  puntaje s `div` PUNTOS_POR_NIVEL + 1 ≤ nivel s →
  verificar_subida_nivel s rs = Some (s, rs).
Proof.
  intros H. unfold verificar_subida_nivel.
  by rewrite (proj2 (Z.ltb_ge _ _)) by lia.
Qed.

Lemma verificar_subida_nivel_sube (s : Juego) (rs : Azar) s' rs' :
  nivel s < puntaje s `div` PUNTOS_POR_NIVEL + 1 →
  verificar_subida_nivel s rs = Some (s', rs') →
  ∃ lote, s' = con_obstaculos (obstaculos s ++ lote) (subir_nivel s)
        ∧ length lote
          = Z.to_nat ((puntaje s `div` PUNTOS_POR_NIVEL + 1 - 1) * 2).
Proof.
  intros Hn H. unfold verificar_subida_nivel in H.
  rewrite (proj2 (Z.ltb_lt _ _)) in H by lia.
  apply generar_obstaculos_Some in H as (lote & -> & Hl). eauto.
Qed.

Lemma verificar_subida_nivel_sorteo (s : Juego) (lote : list Obstaculo)
    (rs : Azar) :
  nivel s < puntaje s `div` PUNTOS_POR_NIVEL + 1 →
  lote_valido (obstaculos s) lote →
  length lote = Z.to_nat ((puntaje s `div` PUNTOS_POR_NIVEL + 1 - 1) * 2) →
  verificar_subida_nivel s (sorteo_lote lote ++ rs)
  = Some (con_obstaculos (obstaculos s ++ lote) (subir_nivel s), rs).
Proof.
  intros Hn Hv Hl. unfold verificar_subida_nivel.
  rewrite (proj2 (Z.ltb_lt _ _)) by lia.
  unfold generar_obstaculos. cbn [nivel mostrar_mensaje con_velocidad con_nivel].
  rewrite <- Hl. cbn [obstaculos mostrar_mensaje con_velocidad con_nivel].
  by rewrite colocar_obstaculos_sorteo.
Qed.

(** The two ways through [verificar_comida]. *)
Lemma verificar_comida_Some (s : Juego) (rs : Azar) s' rs' :
  verificar_comida s rs = Some (s', rs') →
  (come s = Some false ∧ s' = s ∧ rs' = rs)
  ∨ ∃ c c' rs1,
      comida s = Some c ∧ come s = Some true
      ∧ generar_nueva_comida (aplicar_efecto c s) rs
        = Some (con_comida (Some c') (aplicar_efecto c s), rs1)
      ∧ verificar_subida_nivel (con_comida (Some c') (aplicar_efecto c s)) rs1
        = Some (s', rs').
Proof.
  unfold verificar_comida, come. intros H.
  destruct (serpiente s !! 0%nat) as [cabeza |]; [| done].
  destruct (comida s) as [c |]; [| done]. simpl in *.
  destruct (distancia_menor _ _ _); [| left; by injection H as <- <-].
  right.
  destruct (generar_nueva_comida _ _) as [[s1 rs1] |] eqn:Hg; [| done].
  simpl in H.
  pose proof Hg as Hg'.
  apply generar_nueva_comida_Some in Hg' as (c' & -> & _).
  exists c, c', rs1. done.
Qed.

(** C5.  [verificar_subida_nivel] computes the new level as
    [puntaje // 50 + 1].  When it does not exceed the current level, state
    and draws are returned as they are.  When it does, the level becomes
    the new level, the speed becomes [VELOCIDAD_BASE + (nivel - 1) * 20],
    the message of the level is shown and a batch of [(nivel - 1) * 2]
    obstacles is appended to the ones there are; with draws that name
    free cells the check returns that state.  With 49 points in level 1,
    eating a Fit food gives 50 points, level 2, the speed
    [VELOCIDAD_BASE + 20] and two more obstacles. *)
Theorem verificar_subida_nivel_regla (s : Juego) (rs : Azar) :
  let nuevo_nivel := puntaje s `div` PUNTOS_POR_NIVEL + 1 in
  (nuevo_nivel ≤ nivel s → verificar_subida_nivel s rs = Some (s, rs))
  ∧ (nivel s < nuevo_nivel →
       (∀ s' rs',
          verificar_subida_nivel s rs = Some (s', rs') →
          nivel s' = nuevo_nivel
          ∧ velocidad_actual s' = VELOCIDAD_BASE + (nivel s' - 1) * 20
          ∧ mensaje_actual s'
            = "¡NIVEL " +:+ pretty nuevo_nivel +:+ "! Más velocidad y obstáculos"
          ∧ tiempo_mensaje s' = 60
          ∧ ∃ lote, obstaculos s' = obstaculos s ++ lote
                  ∧ length lote = Z.to_nat ((nuevo_nivel - 1) * 2))
       ∧ (∀ lote,
            lote_valido (obstaculos s) lote →
            length lote = Z.to_nat ((nuevo_nivel - 1) * 2) →
            verificar_subida_nivel s (sorteo_lote lote ++ rs)
            = Some (con_obstaculos (obstaculos s ++ lote) (subir_nivel s), rs)))
  ∧ (∀ c s' rs',
       puntaje s = 49 → nivel s = 1 →
       comida s = Some c → c_tipo c = FIT → come s = Some true →
       verificar_comida s rs = Some (s', rs') →
       puntaje s' = 50 ∧ nivel s' = 2
       ∧ velocidad_actual s' = VELOCIDAD_BASE + 20
       ∧ length (obstaculos s') = (length (obstaculos s) + 2)%nat)
  ∧ verificar_comida con_49_puntos [480; 380; 0; 0; 560; 40; 560]
    = Some ({| serpiente := [(100, 0); (80, 0); (0, 0)];
               obstaculos := [{| o_x := -280; o_y := 280 |};
                              {| o_x := -240; o_y := 280 |}];
               direccion := "derecha";
               puntaje := 50; nivel := 2; juegos_jugados := 0;
               velocidad_actual := 170;
               efecto_temporal := None;
               mensaje_actual := "¡NIVEL 2! Más velocidad y obstáculos";
               tiempo_mensaje := 60;
               color_mensaje := "cyan";
               comida := Some {| c_tipo := FIT; c_x := 200; c_y := 100 |} |},
            []).
Proof.
  intros nuevo_nivel. split; [apply verificar_subida_nivel_igual |].
  split.
  { intros Hn. split.
    - intros s' rs' H.
      apply verificar_subida_nivel_sube in H as (lote & -> & Hl); [| done].
      simpl. repeat split; try done. eauto.
    - intros lote Hv Hl. by apply verificar_subida_nivel_sorteo. }
  split; [| vm_compute; reflexivity].
  intros c s' rs' Hp Hn Hc Ht Hcome H.
  apply verificar_comida_Some in H
    as [(Hf & _) | (c0 & c' & rs1 & Hc0 & _ & _ & H)]; [congruence |].
  assert (c0 = c) as -> by congruence.
  apply verificar_subida_nivel_sube in H as (lote & -> & Hl).
  - unfold aplicar_efecto in *. rewrite Ht in *. simpl in *.
    rewrite Hp in *. change (Z.to_nat _) with 2%nat in Hl.
    rewrite length_app, Hl. done.
  - unfold aplicar_efecto. rewrite Ht. simpl. rewrite Hp, Hn. done.
Qed.

(** ** Restart *)

(** The state [game_over] leads to: everything is rebuilt from the level,
    the score and the number of games; the obstacles are a new batch and
    the food a new food. *)
Lemma game_over_Some (s : Juego) (rs : Azar) s' rs' :
  game_over s rs = Some (s', rs') →
  ∃ lote rs1 c,
    colocar_obstaculos (Z.to_nat ((nivel s - 1) * 2)) [] rs = Some (lote, rs1)
    ∧ s' = {| serpiente := [(0, 0)];
              obstaculos := lote;
              direccion := "derecha";
              puntaje := puntaje s; nivel := nivel s;
              juegos_jugados := juegos_jugados s + 1;
              velocidad_actual := velocidad_nivel (nivel s);
              efecto_temporal := None;
              mensaje_actual :=
                "¡Juego Reiniciado! Partida #" +:+ pretty (juegos_jugados s + 1);
              tiempo_mensaje := 60;
              color_mensaje := "yellow";
              comida := Some c |}.
Proof.
  unfold game_over, inicializar_juego, generar_obstaculos. simpl. intros H.
  destruct (colocar_obstaculos _ _ _) as [[lote rs1] |] eqn:Hl; [| done].
  simpl in H.
  destruct (generar_nueva_comida _ _) as [[s2 rs2] |] eqn:Hg; [| done].
  simpl in H. injection H as <- <-.
  apply generar_nueva_comida_Some in Hg as (c & -> & _).
  exists lote, rs1, c. done.
Qed.

(** With draws that name a batch of free cells and a free cell for the
    food, the restart returns at once. *)
Lemma game_over_sorteo (s : Juego) (lote : list Obstaculo) (x y k : Z)
    (rs : Azar) :
  lote_valido [] lote →
  length lote = Z.to_nat ((nivel s - 1) * 2) →
  en_cuadricula x → en_cuadricula y →
  (∀ o, o ∈ lote → ¬ cerca 20 (x, y) (o_x o, o_y o)) →
  ¬ cerca 20 (x, y) (0, 0) →
  ∃ s', game_over s (sorteo_lote lote ++ sorteo_comida (x, y) k ++ rs)
          = Some (s', rs)
      ∧ obstaculos s' = lote
      ∧ comida s'
        = Some {| c_tipo := choice tipos_comida k; c_x := x; c_y := y |}.
Proof.
  intros Hv Hl Hx Hy Ho H0.
  unfold game_over, inicializar_juego, generar_obstaculos.
  cbn [nivel obstaculos con_serpiente con_juegos_jugados from_option].
  rewrite <- Hl, colocar_obstaculos_sorteo by done.
  cbn [mbind option_bind app].
  rewrite generar_nueva_comida_sorteo; [by eexists | done | done |].
  apply conflicto_comida_false. simpl. split; [done |].
  intros seg Hseg. apply list_elem_of_singleton in Hseg as ->. done.
Qed.

(** C2 (amended).  When the restart ([game_over], which calls
    [inicializar_juego]) returns, score and level are as before, the
    number of games is one more, the snake is the single head at (0, 0),
    the direction is "derecha", no effect is active and the speed is the
    speed of the level.  The obstacles are not kept: the list is emptied
    and filled with a new batch of [(nivel - 1) * 2] obstacles, drawn
    without regard to the old ones.  And the restart does return: draws
    that name free cells for the batch and for the food are accepted at
    once. *)
Theorem game_over_reinicia (s : Juego) :
  (∀ rs s' rs',
     game_over s rs = Some (s', rs') →
     puntaje s' = puntaje s
     ∧ nivel s' = nivel s
     ∧ juegos_jugados s' = juegos_jugados s + 1
     ∧ serpiente s' = [(0, 0)]
     ∧ direccion s' = "derecha"
     ∧ efecto_temporal s' = None
     ∧ velocidad_actual s' = VELOCIDAD_BASE + (nivel s - 1) * 20
     ∧ length (obstaculos s') = Z.to_nat ((nivel s - 1) * 2)
     ∧ ∃ rs1, colocar_obstaculos (Z.to_nat ((nivel s - 1) * 2)) [] rs
              = Some (obstaculos s', rs1))
  ∧ (∀ lote x y k rs,
       lote_valido [] lote →
       length lote = Z.to_nat ((nivel s - 1) * 2) →
       en_cuadricula x → en_cuadricula y →
       (∀ o, o ∈ lote → ¬ cerca 20 (x, y) (o_x o, o_y o)) →
       ¬ cerca 20 (x, y) (0, 0) →
       ∃ s', game_over s (sorteo_lote lote ++ sorteo_comida (x, y) k ++ rs)
               = Some (s', rs)
           ∧ obstaculos s' = lote
           ∧ comida s'
             = Some {| c_tipo := choice tipos_comida k; c_x := x; c_y := y |}).
Proof.
  split; [| intros; by apply game_over_sorteo].
  intros rs s' rs' H.
  apply game_over_Some in H as (lote & rs1 & c & Hl & ->). simpl.
  repeat split; try done.
  - apply colocar_obstaculos_Some in Hl as (l & -> & Hlen). done.
  - eauto.
Qed.

(** ** Rounds of the main loop *)

Lemma iteracion_choque (s : Juego) (rs : Azar) :
  colision s = Some true → iteracion s rs = game_over s rs.
Proof.
  unfold colision, iteracion. intros H.
  destruct (verificar_colisiones s) as [[] |]; [done | | done].
  by rewrite H.
Qed.

Lemma iteracion_sin_choque (s : Juego) (rs : Azar) s' rs' :
  colision s = Some false →
  iteracion s rs = Some (s', rs') →
  ∃ s1 s2,
    mover_serpiente s = Some s1
    ∧ verificar_comida s1 rs = Some (s2, rs')
    ∧ s' = actualizar_pantalla (actualizar_efectos_temporales s2).
Proof.
  unfold colision, iteracion. intros Hc H.
  destruct (verificar_colisiones s) as [[] |]; [done | | done].
  rewrite Hc in H.
  destruct (mover_serpiente s) as [s1 |]; [| done]. simpl in H.
  destruct (verificar_comida s1 rs) as [[s2 rs2] |] eqn:Hv; [| done].
  simpl in H. injection H as <- <-. by exists s1, s2.
Qed.

Lemma iteracion_colision (s : Juego) (rs : Azar) s' rs' :
  iteracion s rs = Some (s', rs') →
  colision s = Some true ∨ colision s = Some false.
Proof.
  unfold colision, iteracion. intros H.
  destruct (verificar_colisiones s) as [[] |]; [by left | | done].
  destruct (verificar_colision_obstaculos s) as [[] |]; auto. done.
Qed.

Lemma mover_serpiente_Some (s s1 : Juego) :
  mover_serpiente s = Some s1 →
  ∃ l, s1 = con_serpiente l s ∧ length l = length (serpiente s)
     ∧ (1 ≤ length (serpiente s))%nat.
Proof.
  intros H. destruct (serpiente s !! 0%nat) as [cabeza |] eqn:Hc.
  - destruct (mover_serpiente_eq s cabeza Hc) as (l & Hm & Hl & _).
    exists l. split; [congruence |]. split; [done |].
    apply lookup_lt_Some in Hc. lia.
  - unfold mover_serpiente in H. by rewrite Hc in H.
Qed.

(** The ways through [verificar_comida]: nothing is eaten; or the food is
    eaten and replaced, and then the level stays or rises. *)
Lemma verificar_comida_casos (s : Juego) (rs : Azar) s' rs' :
  verificar_comida s rs = Some (s', rs') →
  (come s = Some false ∧ s' = s)
  ∨ ∃ c c',
      comida s = Some c ∧ come s = Some true
      ∧ ((s' = con_comida (Some c') (aplicar_efecto c s)
          ∧ puntaje s' `div` PUNTOS_POR_NIVEL + 1 ≤ nivel s)
         ∨ ∃ lote,
             nivel s < puntaje (aplicar_efecto c s) `div` PUNTOS_POR_NIVEL + 1
             ∧ s' = con_obstaculos (obstaculos s ++ lote)
                      (subir_nivel (con_comida (Some c') (aplicar_efecto c s)))
             ∧ length lote
               = Z.to_nat ((puntaje (aplicar_efecto c s)
                              `div` PUNTOS_POR_NIVEL + 1 - 1) * 2)).
Proof.
  intros H. apply verificar_comida_Some in H
    as [(Hf & -> & _) | (c & c' & rs1 & Hc & Hcome & _ & H)]; [by left |].
  right. exists c, c'. split; [done |]. split; [done |].
  assert (nivel (aplicar_efecto c s) = nivel s) as Hn
    by (unfold aplicar_efecto; repeat case_match; done).
  assert (obstaculos (aplicar_efecto c s) = obstaculos s) as Ho
    by (unfold aplicar_efecto; repeat case_match; done).
  set (a := con_comida (Some c') (aplicar_efecto c s)) in *.
  destruct (decide (nivel a < puntaje a `div` PUNTOS_POR_NIVEL + 1)) as [Hlt | Hge].
  - right. apply verificar_subida_nivel_sube in H as (lote & -> & Hl); [| done].
    exists lote. subst a. simpl in *. rewrite Hn in Hlt. rewrite Ho. done.
  - left. rewrite verificar_subida_nivel_igual in H by lia.
    injection H as <- _. subst a. simpl in *. split; [done | lia].
Qed.

(** ** What the steps of a round change *)

Lemma aplicar_efecto_fijos (c : Comida) (s : Juego) :
  nivel (aplicar_efecto c s) = nivel s
  ∧ obstaculos (aplicar_efecto c s) = obstaculos s
  ∧ direccion (aplicar_efecto c s) = direccion s
  ∧ juegos_jugados (aplicar_efecto c s) = juegos_jugados s.
Proof. unfold aplicar_efecto. repeat case_match; done. Qed.

Lemma aplicar_efecto_puntaje (c : Comida) (s : Juego) :
  0 ≤ puntaje s →
  0 ≤ puntaje (aplicar_efecto c s) ≤ puntaje s + 5.
Proof. unfold aplicar_efecto. repeat case_match; simpl; lia. Qed.

Lemma aplicar_efecto_velocidad (c : Comida) (s : Juego) (tope : Z) :
  300 ≤ tope →
  50 ≤ velocidad_actual s ≤ tope →
  50 ≤ velocidad_actual (aplicar_efecto c s) ≤ tope.
Proof. unfold aplicar_efecto. repeat case_match; simpl; lia. Qed.

(** The length of the snake after a food: one less for a poisonous food
    when there is more than the head, unchanged for a poisonous food
    otherwise, one more for the other foods. *)
Lemma aplicar_efecto_longitud (c : Comida) (s : Juego) :
  length (serpiente (aplicar_efecto c s)) =
    match c_tipo c with
    | VENENOSA =>
        if (1 <? length (serpiente s))%nat
        then (length (serpiente s) - 1)%nat else length (serpiente s)
    | _ => S (length (serpiente s))
    end.
Proof.
  unfold aplicar_efecto.
  destruct (c_tipo c); simpl; rewrite ?length_app; simpl; try lia.
  destruct (1 <? length (serpiente s))%nat eqn:Hl; simpl; [| done].
  apply Nat.ltb_lt in Hl.
  destruct (serpiente s) as [| p l] using rev_ind; [simpl in Hl; lia |].
  rewrite removelast_last, length_app. simpl. lia.
Qed.

Lemma actualizar_efectos_temporales_fijos (s : Juego) :
  serpiente (actualizar_efectos_temporales s) = serpiente s
  ∧ obstaculos (actualizar_efectos_temporales s) = obstaculos s
  ∧ puntaje (actualizar_efectos_temporales s) = puntaje s
  ∧ nivel (actualizar_efectos_temporales s) = nivel s
  ∧ (velocidad_actual (actualizar_efectos_temporales s) = velocidad_actual s
     ∨ velocidad_actual (actualizar_efectos_temporales s) = VELOCIDAD_BASE).
Proof.
  unfold actualizar_efectos_temporales. repeat case_match; simpl; auto 10.
Qed.

Lemma actualizar_pantalla_fijos (s : Juego) :
  serpiente (actualizar_pantalla s) = serpiente s
  ∧ obstaculos (actualizar_pantalla s) = obstaculos s
  ∧ puntaje (actualizar_pantalla s) = puntaje s
  ∧ nivel (actualizar_pantalla s) = nivel s
  ∧ velocidad_actual (actualizar_pantalla s) = velocidad_actual s
  ∧ efecto_temporal (actualizar_pantalla s) = efecto_temporal s.
Proof. unfold actualizar_pantalla. case_match; done. Qed.

Lemma div_subida (p q : Z) : p ≤ q + 5 → p `div` 50 ≤ q `div` 50 + 1.
Proof.
  intros H.
  pose proof (Z.div_le_mono p (q + 1 * 50) 50 ltac:(lia) ltac:(lia)) as Hd.
  by rewrite Z.div_add in Hd by lia.
Qed.

(** A round without restart keeps the invariant, appends to the obstacles
    and raises the level by one at most; a rise brings a batch of
    [(nivel - 1) * 2] obstacles for the new level. *)
Lemma ronda_invariante (s : Juego) (rs : Azar) s' rs' :
  colision s = Some false →
  invariante s →
  iteracion s rs = Some (s', rs') →
  invariante s'
  ∧ ∃ lote,
      obstaculos s' = obstaculos s ++ lote
      ∧ ((nivel s' = nivel s ∧ lote = [])
         ∨ (nivel s' = nivel s + 1
            ∧ length lote = Z.to_nat ((nivel s' - 1) * 2))).
Proof.
  intros Hc (Hlen & Hp & Hn & Hpn & Hv) H.
  apply iteracion_sin_choque in H as (s1 & s2 & Hm & Hvc & ->); [| done].
  apply mover_serpiente_Some in Hm as (l & -> & Hl & _).
  pose proof (actualizar_efectos_temporales_fijos s2)
    as (Es & Eo & Ep & En & Ev).
  pose proof (actualizar_pantalla_fijos (actualizar_efectos_temporales s2))
    as (Ps & Po & Pp & Pn & Pv & _).
  unfold invariante. rewrite Ps, Po, Pp, Pn, Pv, Es, Eo, Ep, En.
  assert (velocidad_actual (actualizar_efectos_temporales s2) = velocidad_actual s2
          ∨ velocidad_actual (actualizar_efectos_temporales s2) = 150) as Ev'
    by exact Ev.
  clear Ev Ps Po Pp Pn Pv Es Eo Ep En.
  unfold PUNTOS_POR_NIVEL in *.
  apply verificar_comida_casos in Hvc
    as [(_ & ->) | (c & c' & _ & _ & Hcasos)].
  { simpl in *. split; [| exists []; rewrite app_nil_r; auto].
    repeat split; try lia. }
  set (s1 := con_serpiente l s) in *.
  pose proof (aplicar_efecto_fijos c s1) as (An & Ao & _).
  pose proof (aplicar_efecto_puntaje c s1 Hp) as Ap.
  pose proof (aplicar_efecto_velocidad c s1 _ ltac:(apply Z.le_max_l) Hv) as Av.
  pose proof (aplicar_efecto_longitud c s1) as Al.
  assert (1 ≤ length (serpiente (aplicar_efecto c s1)))%nat as Hlen'.
  { rewrite Al. subst s1. simpl. rewrite Hl.
    destruct (c_tipo c); try lia.
    destruct (1 <? length (serpiente s))%nat eqn:E; [| lia].
    apply Nat.ltb_lt in E. lia. }
  change (puntaje s1) with (puntaje s) in *.
  change (nivel s1) with (nivel s) in *.
  change (obstaculos s1) with (obstaculos s) in *.
  pose proof (div_subida _ _ (proj2 Ap)) as Hdiv.
  destruct Hcasos as [[-> Hle] | (lote & Hlt & -> & Hlote)]; simpl in *;
    unfold PUNTOS_POR_NIVEL in *.
  - split; [| exists []; rewrite app_nil_r; auto].
    rewrite An. repeat split; try lia.
  - set (p := puntaje (aplicar_efecto c s1)) in *.
    assert (p `div` 50 + 1 = nivel s + 1) as Hnuevo by lia.
    split.
    + repeat split; unfold velocidad_nivel, VELOCIDAD_BASE in *; lia.
    + exists lote. split; [done |]. right. split; [done |].
      rewrite Hlote. done.
Qed.

(** ** Invariants of a run *)

Lemma iniciar_Some (rs : Azar) s rs' :
  iniciar rs = Some (s, rs') →
  ∃ c, s = {| serpiente := [(0, 0)];
              obstaculos := [];
              direccion := "derecha";
              puntaje := 0; nivel := 1; juegos_jugados := 0;
              velocidad_actual := 150;
              efecto_temporal := None;
              mensaje_actual := ""; tiempo_mensaje := 0;
              color_mensaje := "white";
              comida := Some c |}.
Proof.
  unfold iniciar, inicializar_juego, generar_obstaculos. simpl. intros H.
  destruct (generar_nueva_comida _ _) as [[s2 rs2] |] eqn:Hg; [| done].
  apply generar_nueva_comida_Some in Hg as (c & -> & _).
  injection H as <- <-. by exists c.
Qed.

Lemma cambiar_direccion_casos (d : string) (s : Juego) :
  cambiar_direccion d s = s ∨ cambiar_direccion d s = con_direccion d s.
Proof. unfold cambiar_direccion. case_decide; auto. Qed.

Lemma cambiar_direccion_invariante (d : string) (s : Juego) :
  invariante s → invariante (cambiar_direccion d s).
Proof. destruct (cambiar_direccion_casos d s) as [-> | ->]; done. Qed.

Lemma game_over_invariante (s : Juego) (rs : Azar) s' rs' :
  invariante s → game_over s rs = Some (s', rs') → invariante s'.
Proof.
  intros (Hlen & Hp & Hn & Hpn & Hv) H.
  apply game_over_Some in H as (lote & rs1 & c & _ & ->).
  unfold invariante; simpl.
  unfold velocidad_nivel, VELOCIDAD_BASE, PUNTOS_POR_NIVEL in *.
  repeat split; lia.
Qed.

Theorem alcanzable_invariante (s : Juego) : alcanzable s → invariante s.
Proof.
  induction 1 as [rs s rs' H | s d _ IH _ | s rs s' rs' _ IH H].
  - apply iniciar_Some in H as (c & ->).
    unfold invariante; simpl.
    unfold velocidad_nivel, VELOCIDAD_BASE, PUNTOS_POR_NIVEL.
    repeat split; try lia. by compute.
  - by apply cambiar_direccion_invariante.
  - destruct (iteracion_colision _ _ _ _ H) as [Hc | Hc].
    + rewrite iteracion_choque in H by done.
      by eapply game_over_invariante.
    + by destruct (ronda_invariante _ _ _ _ Hc IH H).
Qed.

Lemma sesion_alcanzable (n : nat) (s : Juego) : sesion n s → alcanzable s.
Proof.
  induction 1.
  - by eapply alcanzable_inicio.
  - by apply alcanzable_tecla.
  - by eapply alcanzable_iteracion.
Qed.

(** The scripted player only makes moves of the game. *)
Lemma jugar_alcanzable (n : nat) (s s' : Juego) :
  alcanzable s → jugar n s = Some s' → alcanzable s'.
Proof.
  revert s. induction n as [| n IH]; intros s Hs H; simpl in H.
  { by injection H as <-. }
  destruct (iteracion s (guion s)) as [[s1 rs1] |] eqn:Hi; [| done].
  simpl in H. eapply IH; [| done]. by eapply alcanzable_iteracion.
Qed.

Lemma partida_alcanzable (n : nat) (s : Juego) :
  partida n = Some s → alcanzable s.
Proof.
  unfold partida. intros H.
  destruct (iniciar _) as [[s0 rs0] |] eqn:Hi; [| done]. simpl in H.
  eapply jugar_alcanzable; [| done]. by eapply alcanzable_inicio.
Qed.

Lemma jugar_sesion_sesion (n m k : nat) (s s' : Juego) :
  sesion m s → jugar_sesion n s = Some (k, s') → sesion (m + k) s'.
Proof.
  revert m k s. induction n as [| n IH]; intros m k s Hs H; simpl in H.
  { injection H as <- <-. by rewrite Nat.add_0_r. }
  destruct (colision s) as [[] |] eqn:Hc; try done.
  destruct (iteracion s (guion s)) as [[s1 rs1] |] eqn:Hi; [| done].
  simpl in H.
  destruct (jugar_sesion n s1) as [[k1 s2] |] eqn:Hj; [| done].
  simpl in H. injection H as <- <-.
  rewrite Nat.add_assoc. eapply IH; [| done].
  by eapply sesion_iteracion.
Qed.

(** ** Obstacles in a session *)

Lemma suma_hasta_doble (n : nat) : (2 * suma_hasta n = n * (n + 1))%nat.
Proof. induction n as [| n IH]; simpl in *; lia. Qed.

Lemma sesion_nivel_obstaculos (n : nat) (s : Juego) :
  sesion n s →
  nivel s = Z.of_nat n + 1
  ∧ length (obstaculos s) = (2 * suma_hasta n)%nat.
Proof.
  induction 1 as [rs s rs' H | n s d _ IH _ | n s rs s' rs' Hs IH Hc H].
  - apply iniciar_Some in H as (c & ->). done.
  - by destruct (cambiar_direccion_casos d s) as [-> | ->].
  - pose proof (alcanzable_invariante _ (sesion_alcanzable _ _ Hs)) as Hinv.
    destruct (ronda_invariante _ _ _ _ Hc Hinv H)
      as (_ & lote & Ho & [[Hn ->] | [Hn Hl]]); destruct IH as [IHn IHo].
    + unfold subidas. rewrite (proj2 (Z.ltb_ge _ _)) by lia.
      rewrite Nat.add_0_r, Ho, app_nil_r. split; [lia | done].
    + unfold subidas. rewrite (proj2 (Z.ltb_lt _ _)) by lia.
      rewrite Ho, length_app, Hl, IHo.
      replace (n + 1)%nat with (S n) by lia. simpl. split; lia.
Qed.

Lemma partida_sesion_sesion (n k : nat) (s : Juego) :
  partida_sesion n = Some (k, s) → sesion k s.
Proof.
  unfold partida_sesion. intros H.
  destruct (iniciar _) as [[s0 rs0] |] eqn:Hi; [| done]. simpl in H.
  change k with (0 + k)%nat. eapply jugar_sesion_sesion; [| done].
  by eapply sesion_inicio.
Qed.

(** The sample states are states of runs. *)
Lemma tras_subida_sesion : sesion 1 tras_subida.
Proof. apply (partida_sesion_sesion 10). vm_compute. reflexivity. Qed.

Lemma fuera_de_pantalla_alcanzable : alcanzable fuera_de_pantalla.
Proof. apply (partida_alcanzable 15). vm_compute. reflexivity. Qed.

Lemma choque_nivel_3_alcanzable : alcanzable choque_nivel_3.
Proof. apply (partida_alcanzable 31). vm_compute. reflexivity. Qed.

Lemma en_nivel_9_alcanzable : alcanzable en_nivel_9.
Proof. apply (partida_alcanzable 90). vm_compute. reflexivity. Qed.

Lemma efecto_por_expirar_alcanzable : alcanzable efecto_por_expirar.
Proof.
  apply (jugar_alcanzable 3 (cambiar_direccion "arriba" tras_subida)).
  - apply alcanzable_tecla.
    + eapply sesion_alcanzable, tras_subida_sesion.
    + unfold teclas. set_solver.
  - vm_compute. reflexivity.
Qed.

(** C4 (amended).  In a session without restart that has seen n level
    rises the level is n + 1 and the number of obstacles is
    2 * (1 + 2 + ... + n) = n * (n + 1), which is
    2 * (0 + 1 + ... + (level - 1)): every
    rise appends a batch of 2 * (level - 1) obstacles for the new level
    to the ones there are, and no round of the session removes or
    replaces an obstacle. *)
Theorem obstaculos_en_sesion (n : nat) (s : Juego) :
  sesion n s →
  nivel s = Z.of_nat n + 1
  ∧ length (obstaculos s) = (2 * suma_hasta n)%nat
  ∧ length (obstaculos s) = (n * (n + 1))%nat
  ∧ length (obstaculos s) = (2 * suma_bajo (Z.to_nat (nivel s)))%nat
  ∧ ∀ rs s' rs',
      colision s = Some false →
      iteracion s rs = Some (s', rs') →
      ∃ lote,
        obstaculos s' = obstaculos s ++ lote
        ∧ ((nivel s' = nivel s ∧ lote = [])
           ∨ (nivel s' = nivel s + 1
              ∧ length lote = Z.to_nat ((nivel s' - 1) * 2))).
Proof.
  intros Hs. destruct (sesion_nivel_obstaculos n s Hs) as [Hn Ho].
  split; [done |]. split; [done |].
  split; [by rewrite Ho, suma_hasta_doble |]. split.
  - rewrite Ho, Hn. unfold suma_bajo.
    replace (Z.to_nat (Z.of_nat n + 1)) with (S n) by lia. done.
  - intros rs s' rs' Hc H.
    pose proof (alcanzable_invariante _ (sesion_alcanzable _ _ Hs)) as Hinv.
    by destruct (ronda_invariante _ _ _ _ Hc Hinv H) as [_ Hl].
Qed.

(** After the first rise there are two obstacles in level 2. *)
Lemma obstaculos_en_sesion_witness :
  sesion 1 tras_subida
  ∧ nivel tras_subida = 2
  ∧ length (obstaculos tras_subida) = (2 * suma_hasta 1)%nat.
Proof.
  split; [exact tras_subida_sesion |].
  destruct (obstaculos_en_sesion 1 tras_subida tras_subida_sesion)
    as (Hn & Ho & _).
  split; [exact Hn | exact Ho].
Defined.

(** C4 as stated fails: after one level rise there are two obstacles, not
    2 * 0. *)
Lemma obstaculos_tras_una_subida :
  sesion 1 tras_subida
  ∧ length (obstaculos tras_subida) = 2%nat
  ∧ (2 * suma_bajo 1)%nat = 0%nat.
Proof. split; [exact tras_subida_sesion | done]. Qed.

(** The restart of [choque_nivel_3], with four free cells drawn. *)
Lemma game_over_reinicia_witness :
  game_over choque_nivel_3 [0; 560; 40; 560; 80; 560; 120; 560; 300; 280; 7]
  = Some (reiniciado_nivel_3, [])
  ∧ puntaje reiniciado_nivel_3 = puntaje choque_nivel_3
  ∧ nivel reiniciado_nivel_3 = nivel choque_nivel_3
  ∧ juegos_jugados reiniciado_nivel_3 = juegos_jugados choque_nivel_3 + 1
  ∧ serpiente reiniciado_nivel_3 = [(0, 0)]
  ∧ length (obstaculos reiniciado_nivel_3) = 4%nat.
Proof.
  assert (game_over choque_nivel_3
            [0; 560; 40; 560; 80; 560; 120; 560; 300; 280; 7]
          = Some (reiniciado_nivel_3, [])) as H by (vm_compute; reflexivity).
  split; [exact H |].
  destruct (proj1 (game_over_reinicia choque_nivel_3) _ _ _ H)
    as (Hp & Hn & Hj & Hs & _ & _ & _ & Ho & _).
  split; [exact Hp |]. split; [exact Hn |]. split; [exact Hj |].
  split; [exact Hs | exact Ho].
Defined.

(** C2 as stated fails: the restart does not keep the obstacles.  The
    reachable state [choque_nivel_3] has six of them; after the restart
    there are four, whatever is drawn, and with the draws given the
    obstacle at (-120, 280) is gone. *)
Lemma reinicio_cambia_obstaculos :
  alcanzable choque_nivel_3
  ∧ colision choque_nivel_3 = Some true
  ∧ length (obstaculos choque_nivel_3) = 6%nat
  ∧ (∀ rs s' rs',
       game_over choque_nivel_3 rs = Some (s', rs') →
       length (obstaculos s') = 4%nat)
  ∧ ∃ s',
      game_over choque_nivel_3
        [0; 560; 40; 560; 80; 560; 120; 560; 300; 280; 7] = Some (s', [])
      ∧ {| o_x := -120; o_y := 280 |} ∈ obstaculos choque_nivel_3
      ∧ {| o_x := -120; o_y := 280 |} ∉ obstaculos s'.
Proof.
  split; [exact choque_nivel_3_alcanzable |].
  split; [vm_compute; reflexivity |].
  split; [reflexivity |].
  split.
  - intros rs s' rs' H.
    apply game_over_Some in H as (lote & rs1 & c & Hl & ->).
    apply colocar_obstaculos_Some in Hl as (l & -> & Hlen). done.
  - eexists. split; [vm_compute; reflexivity |].
    split; [set_solver |].
    intros H. repeat (apply elem_of_cons in H as [H | H]; [done |]).
    by apply elem_of_nil in H.
Qed.

(** ** Length of the snake *)

(** C7 (amended).  [crecer_serpiente] makes the snake one segment longer
    and a direction input leaves it as it is.  A round of the main loop
    leaves at least one segment, and it makes the snake shorter in two
    cases only: the round restarts the game after a collision, and the
    snake is the single head again; or the head reaches a poisonous food
    while the snake has more than one segment, and exactly the last
    segment is removed.  In every state of a run the snake has at least
    one segment. *)
Theorem longitud_serpiente (s : Juego) :
  length (serpiente (crecer_serpiente s)) = S (length (serpiente s))
  ∧ (∀ d, serpiente (cambiar_direccion d s) = serpiente s)
  ∧ (∀ rs s' rs',
       iteracion s rs = Some (s', rs') →
       (1 ≤ length (serpiente s'))%nat
       ∧ ((length (serpiente s) ≤ length (serpiente s'))%nat
          ∨ (colision s = Some true ∧ serpiente s' = [(0, 0)])
          ∨ (colision s = Some false
             ∧ ∃ s1 c,
                 mover_serpiente s = Some s1
                 ∧ comida s1 = Some c ∧ come s1 = Some true
                 ∧ c_tipo c = VENENOSA
                 ∧ (1 < length (serpiente s))%nat
                 ∧ serpiente s' = removelast (serpiente s1)
                 ∧ S (length (serpiente s')) = length (serpiente s))))
  ∧ (alcanzable s → (1 ≤ length (serpiente s))%nat).
Proof.
  split; [unfold crecer_serpiente; simpl; rewrite length_app; simpl; lia |].
  split; [intros d; by destruct (cambiar_direccion_casos d s) as [-> | ->] |].
  split; [| intros H; by destruct (alcanzable_invariante s H)].
  intros rs s' rs' H.
  destruct (iteracion_colision _ _ _ _ H) as [Hc | Hc].
  { rewrite iteracion_choque in H by done.
    apply game_over_Some in H as (lote & rs1 & c & _ & ->). simpl.
    split; [lia |]. right; left. done. }
  apply iteracion_sin_choque in H as (s1 & s2 & Hm & Hvc & ->); [| done].
  pose proof Hm as Hm'.
  apply mover_serpiente_Some in Hm' as (l & -> & Hl & Hlen).
  destruct (actualizar_pantalla_fijos (actualizar_efectos_temporales s2))
    as (-> & _).
  destruct (actualizar_efectos_temporales_fijos s2) as (-> & _).
  set (s1 := con_serpiente l s) in *.
  assert (length (serpiente s1) = length (serpiente s)) as Hl1 by exact Hl.
  apply verificar_comida_casos in Hvc
    as [(_ & ->) | (c & c' & Hcom & Hcome & Hcasos)].
  { split; [lia |]. left. lia. }
  assert (serpiente s2 = serpiente (aplicar_efecto c s1)) as ->
    by (destruct Hcasos as [[-> _] | (lote & _ & -> & _)]; done).
  pose proof (aplicar_efecto_longitud c s1) as Al. rewrite Hl1 in Al.
  destruct (c_tipo c) eqn:Ht; try (split; [lia |]; left; lia).
  destruct (1 <? length (serpiente s))%nat eqn:Hlt;
    [| split; [lia |]; left; lia].
  apply Nat.ltb_lt in Hlt. split; [lia |]. right; right.
  split; [done |]. exists s1, c.
  repeat split; try done; [| lia].
  unfold aplicar_efecto. rewrite Ht, Hl1.
  by rewrite (proj2 (Nat.ltb_lt _ _)) by lia.
Qed.

(** C7 as stated fails: the round that starts in the reachable state
    [fuera_de_pantalla] restarts the game; the snake goes from fifteen
    segments to one, and no poisonous food is involved (the food there is
    a [REAL] one, and it is not eaten). *)
Lemma reinicio_acorta_serpiente :
  alcanzable fuera_de_pantalla
  ∧ comida fuera_de_pantalla = Some {| c_tipo := REAL; c_x := -200; c_y := 0 |}
  ∧ length (serpiente fuera_de_pantalla) = 15%nat
  ∧ ∃ s',
      iteracion fuera_de_pantalla [0; 560; 40; 560; 300; 280; 7] = Some (s', [])
      ∧ length (serpiente s') = 1%nat.
Proof.
  split; [exact fuera_de_pantalla_alcanzable |].
  split; [reflexivity |]. split; [reflexivity |].
  eexists. split; [vm_compute; reflexivity | reflexivity].
Qed.

(** ** Speed *)

Lemma aplicar_efecto_efecto (c : Comida) (s : Juego) :
  (efecto_temporal (aplicar_efecto c s) = efecto_temporal s
   ∧ velocidad_actual (aplicar_efecto c s) = velocidad_actual s)
  ∨ ∃ t, efecto_temporal (aplicar_efecto c s)
         = Some {| tipo := t; duracion := 5 |}.
Proof. unfold aplicar_efecto. repeat case_match; simpl; eauto. Qed.

(** The three ways through [actualizar_efectos_temporales]. *)
Lemma actualizar_efectos_temporales_casos (s : Juego) :
  (efecto_temporal s = None ∧ actualizar_efectos_temporales s = s)
  ∨ (∃ e, efecto_temporal s = Some e ∧ 1 < duracion e
        ∧ efecto_temporal (actualizar_efectos_temporales s)
          = Some {| tipo := tipo e; duracion := duracion e - 1 |}
        ∧ velocidad_actual (actualizar_efectos_temporales s)
          = velocidad_actual s)
  ∨ (∃ e, efecto_temporal s = Some e ∧ duracion e ≤ 1
        ∧ efecto_temporal (actualizar_efectos_temporales s) = None
        ∧ velocidad_actual (actualizar_efectos_temporales s) = VELOCIDAD_BASE).
Proof.
  unfold actualizar_efectos_temporales.
  destruct (efecto_temporal s) as [e |]; [| by left]. right. simpl.
  destruct (duracion e - 1 <=? 0) eqn:Hd.
  - right. exists e. apply Z.leb_le in Hd. repeat split; [lia | done..].
  - left. exists e. apply Z.leb_gt in Hd. repeat split; [lia | done..].
Qed.

(** After a round without restart: an effect is active; or the effect
    that was active has run out in this round and the speed is
    [VELOCIDAD_BASE]; or there was no effect and there is none, and the
    speed is the one before the round or, after a rise, the one of the
    new level. *)
Lemma ronda_velocidad (s : Juego) (rs : Azar) s' rs' :
  colision s = Some false →
  iteracion s rs = Some (s', rs') →
  efecto_temporal s' ≠ None
  ∨ (expira s s' ∧ velocidad_actual s' = VELOCIDAD_BASE)
  ∨ (efecto_temporal s = None ∧ efecto_temporal s' = None
     ∧ ((nivel s' = nivel s ∧ velocidad_actual s' = velocidad_actual s)
        ∨ (nivel s < nivel s'
           ∧ velocidad_actual s' = velocidad_nivel (nivel s')))).
Proof.
  intros Hc H. unfold expira.
  apply iteracion_sin_choque in H as (s1 & s2 & Hm & Hvc & ->); [| done].
  apply mover_serpiente_Some in Hm as (l & -> & _).
  destruct (actualizar_pantalla_fijos (actualizar_efectos_temporales s2))
    as (_ & _ & _ & -> & -> & ->).
  destruct (actualizar_efectos_temporales_fijos s2) as (_ & _ & _ & Hn2 & _).
  rewrite Hn2.
  set (s1 := con_serpiente l s) in *.
  (* the state before the effects are updated *)
  assert ((efecto_temporal s2 = efecto_temporal s
           ∧ ((nivel s2 = nivel s ∧ velocidad_actual s2 = velocidad_actual s)
              ∨ (nivel s < nivel s2
                 ∧ velocidad_actual s2 = velocidad_nivel (nivel s2))))
          ∨ ∃ t, efecto_temporal s2 = Some {| tipo := t; duracion := 5 |})
    as Hantes.
  { apply verificar_comida_casos in Hvc
      as [(_ & ->) | (c & c' & _ & _ & Hcasos)]; [left; auto |].
    destruct (aplicar_efecto_fijos c s1) as (An & _).
    destruct (aplicar_efecto_efecto c s1) as [[Ae Av] | [t Ht]];
      destruct Hcasos as [[-> _] | (lote & Hlt & -> & _)]; simpl in *;
      eauto.
    all: left; split; [done |];
      first [by left | right; split; [lia | done]]. }
  destruct (actualizar_efectos_temporales_casos s2)
    as [[He ->] | [(e & He & Hd & -> & Hv) | (e & He & Hd & He' & Hv)]].
  - destruct Hantes as [[Hes Hnv] | [t Ht]]; [| congruence].
    right; right. rewrite <- Hes. done.
  - by left.
  - destruct Hantes as [[Hes Hnv] | [t Ht]].
    + right; left. split; [| done]. split; [congruence | done].
    + rewrite Ht in He. injection He as <-. simpl in Hd. lia.
Qed.

Lemma limpio_alcanzable (s : Juego) : limpio s → alcanzable s.
Proof.
  induction 1.
  - by eapply alcanzable_inicio.
  - by apply alcanzable_tecla.
  - by eapply alcanzable_iteracion.
  - by eapply alcanzable_iteracion.
  - by eapply alcanzable_iteracion.
Qed.

Lemma limpio_velocidad (s : Juego) :
  limpio s →
  efecto_temporal s = None → velocidad_actual s = velocidad_nivel (nivel s).
Proof.
  induction 1 as [rs s rs' H | s d _ IH _ | s rs s' rs' _ Hc H
                  | s rs s' rs' _ Hc H Hn Hex
                  | s rs s' rs' Hl IH Hc H Hex]; intros He.
  - apply iniciar_Some in H as (c & ->). done.
  - destruct (cambiar_direccion_casos d s) as [E | E];
      rewrite E in *; by apply IH.
  - rewrite iteracion_choque in H by done.
    apply game_over_Some in H as (lote & rs1 & c & _ & ->). done.
  - destruct (ronda_velocidad _ _ _ _ Hc H)
      as [Hact | [[Hx _] | (_ & _ & [[Hn' _] | [_ Hv]])]];
      [done | done | lia | done].
  - destruct (ronda_velocidad _ _ _ _ Hc H)
      as [Hact | [[Hx Hv] | (He0 & _ & [[Hn' Hv] | [_ Hv]])]];
      [done | | | done].
    + assert (alcanzable s') as Ha
        by (eapply alcanzable_iteracion; [by apply limpio_alcanzable | done]).
      destruct (alcanzable_invariante _ Ha) as (_ & _ & Hn1 & _).
      assert (nivel s' = 1) as -> by (apply Z.le_antisymm; [| done];
        destruct (decide (nivel s' ≤ 1)); [done |]; exfalso; apply Hex;
        split; [done | lia]).
      by rewrite Hv.
    + rewrite Hv, Hn'. by apply IH.
Qed.

(** C3 (amended).  In every reachable state, and after any food effect is
    applied in it, the speed is at least 50 and at most the larger of 300
    and the speed of the level; so it lies in 50..300 as long as the level
    is at most 8.  When no effect is active the speed is the speed of the
    level, [VELOCIDAD_BASE + (nivel - 1) * 20], provided no effect has run
    out in a level above the first since the last restart or level
    rise. *)
Theorem velocidad_acotada (s : Juego) :
  alcanzable s →
  50 ≤ velocidad_actual s ≤ Z.max 300 (VELOCIDAD_BASE + (nivel s - 1) * 20)
  ∧ (∀ c, 50 ≤ velocidad_actual (aplicar_efecto c s)
            ≤ Z.max 300 (VELOCIDAD_BASE + (nivel s - 1) * 20))
  ∧ (nivel s ≤ 8 → ∀ c, 50 ≤ velocidad_actual (aplicar_efecto c s) ≤ 300)
  ∧ (limpio s → efecto_temporal s = None →
     velocidad_actual s = VELOCIDAD_BASE + (nivel s - 1) * 20).
Proof.
  intros Ha. destruct (alcanzable_invariante s Ha) as (_ & _ & Hn & _ & Hv).
  split; [exact Hv |]. split; [| split].
  - intros c. by apply aplicar_efecto_velocidad; [apply Z.le_max_l |].
  - intros H8 c. apply aplicar_efecto_velocidad; [done |].
    unfold velocidad_nivel, VELOCIDAD_BASE in Hv. lia.
  - apply limpio_velocidad.
Qed.

Lemma reiniciado_nivel_3_limpio : limpio reiniciado_nivel_3.
Proof.
  eapply (limpio_reinicio choque_nivel_3
            [0; 560; 40; 560; 80; 560; 120; 560; 300; 280; 7]).
  - exact choque_nivel_3_alcanzable.
  - vm_compute. reflexivity.
  - vm_compute. reflexivity.
Qed.

(** After the restart in level 3 the speed is 190. *)
Lemma velocidad_acotada_witness :
  alcanzable reiniciado_nivel_3
  ∧ limpio reiniciado_nivel_3
  ∧ efecto_temporal reiniciado_nivel_3 = None
  ∧ velocidad_actual reiniciado_nivel_3
    = VELOCIDAD_BASE + (nivel reiniciado_nivel_3 - 1) * 20
  ∧ ∀ c, 50 ≤ velocidad_actual (aplicar_efecto c reiniciado_nivel_3) ≤ 300.
Proof.
  pose proof (limpio_alcanzable _ reiniciado_nivel_3_limpio) as Ha.
  destruct (velocidad_acotada reiniciado_nivel_3 Ha) as (_ & _ & H8 & Hl).
  split; [exact Ha |]. split; [exact reiniciado_nivel_3_limpio |].
  split; [reflexivity |].
  split; [exact (Hl reiniciado_nivel_3_limpio eq_refl) |].
  apply H8. simpl. lia.
Defined.

(** C3 as stated fails, in both halves.  In the reachable state
    [en_nivel_9] the speed is the speed of level 9, which is 310; a Fit
    food leaves it there.  And the round that starts in the reachable
    state [efecto_por_expirar] eats nothing and ends with no effect
    active, in level 2, at the speed 150 and not 170. *)
Lemma velocidad_fuera_de_regla :
  (alcanzable en_nivel_9
   ∧ velocidad_actual
       (aplicar_efecto {| c_tipo := FIT; c_x := 220; c_y := 0 |} en_nivel_9)
     = 310)
  ∧ (alcanzable efecto_por_expirar
     ∧ colision efecto_por_expirar = Some false
     ∧ ∃ s1 s',
         mover_serpiente efecto_por_expirar = Some s1
         ∧ come s1 = Some false
         ∧ iteracion efecto_por_expirar [] = Some (s', [])
         ∧ efecto_temporal s' = None
         ∧ nivel s' = 2
         ∧ velocidad_actual s' = 150
         ∧ VELOCIDAD_BASE + (nivel s' - 1) * 20 = 170).
Proof.
  split.
  - split; [exact en_nivel_9_alcanzable | reflexivity].
  - split; [exact efecto_por_expirar_alcanzable |].
    split; [vm_compute; reflexivity |].
    eexists _, _. split; [vm_compute; reflexivity |].
    split; [vm_compute; reflexivity |].
    split; [vm_compute; reflexivity |].
    repeat split.
Qed.

(** * Further properties of the code *)

(** ** The advance as a whole *)

Lemma removelast_take (l : list Pos) :
  removelast l = take (length l - 1) l.
Proof.
  rewrite removelast_firstn_len. by replace (pred (length l)) with
    (length l - 1)%nat by lia.
Qed.

(** X1.  [mover_serpiente] fails on an empty snake only; on a snake with
    head [cabeza] the in-place loop gives the new head followed by the old
    segments without the last one, and nothing else of the state
    changes. *)
Theorem mover_serpiente_forma (s : Juego) :
  (serpiente s = [] → mover_serpiente s = None)
  ∧ (∀ cabeza cuerpo,
       serpiente s = cabeza :: cuerpo →
       mover_serpiente s
       = Some (con_serpiente
                 (nueva_posicion (direccion s) cabeza
                    :: removelast (cabeza :: cuerpo)) s)).
Proof.
  split.
  { intros H. unfold mover_serpiente. by rewrite H. }
  intros cabeza cuerpo Hs.
  destruct (mover_serpiente_eq s cabeza) as (l & Hm & Hl & H0 & Hi);
    [by rewrite Hs |].
  rewrite Hm. do 2 f_equal. rewrite Hs in *.
  apply list_eq. intros [| i]; [done |].
  rewrite removelast_take. simpl in *.
  destruct (decide (S i < S (length cuerpo))%nat) as [Hlt | Hge].
  - rewrite Hi by lia. rewrite lookup_take_lt by lia. simpl.
    by replace (i - 0)%nat with i by lia.
  - rewrite lookup_take_ge by lia. apply lookup_ge_None. lia.
Qed.

(** X2.  The segment added by [crecer_serpiente] is never seen at its
    home position by the next advance: after growing and advancing, the
    snake is the new head followed by all the segments it had, so the tail
    stays where it was. *)
Theorem crecer_y_mover (s : Juego) (cabeza : Pos) (cuerpo : list Pos) :
  serpiente s = cabeza :: cuerpo →
  serpiente <$> mover_serpiente (crecer_serpiente s)
  = Some (nueva_posicion (direccion s) cabeza :: cabeza :: cuerpo).
Proof.
  intros Hs.
  destruct (mover_serpiente_forma (crecer_serpiente s)) as [_ H].
  rewrite (H cabeza (cuerpo ++ [(0, 0)])).
  - change (removelast (cabeza :: cuerpo ++ [(0, 0)]))
      with (removelast ((cabeza :: cuerpo) ++ [(0, 0)])).
    by rewrite removelast_last.
  - unfold crecer_serpiente. simpl. by rewrite Hs.
Qed.

Lemma crecer_y_mover_witness :
  serpiente serpiente_de_tres = [(40, 0); (20, 0); (0, 0)]
  ∧ serpiente <$> mover_serpiente (crecer_serpiente serpiente_de_tres)
    = Some [(40, 20); (40, 0); (20, 0); (0, 0)].
Proof.
  split; [reflexivity |].
  exact (crecer_y_mover serpiente_de_tres (40, 0) [(20, 0); (0, 0)] eq_refl).
Defined.

(** ** Rounding to the grid *)


(** ** Score *)

(** X4.  The score never becomes negative: not by any sequence of foods
    eaten from a state with a score of at least 0 (and n foods raise it by
    5 n at most), and so in no state of a run. *)
Theorem puntaje_no_negativo (s : Juego) :
  (0 ≤ puntaje s →
   ∀ cs, 0 ≤ puntaje (aplicar_efectos cs s)
           ≤ puntaje s + 5 * Z.of_nat (length cs))
  ∧ (alcanzable s → 0 ≤ puntaje s).
Proof.
  split; [| intros H; by destruct (alcanzable_invariante s H) as (_ & ? & _)].
  intros Hp cs. revert s Hp. unfold aplicar_efectos.
  induction cs as [| c cs IH]; intros s Hp; simpl; [lia |].
  pose proof (aplicar_efecto_puntaje c s Hp) as Ha.
  specialize (IH (aplicar_efecto c s) ltac:(lia)). lia.
Qed.

(** ** Duration of effects and messages *)

Lemma iter_S {A} (f : A → A) (k : nat) (x : A) :
  Nat.iter (S k) f x = f (Nat.iter k f x).
Proof. reflexivity. Qed.

(** X5.  An effect with [d >= 1] rounds left stays active, with its kind
    and with the speed untouched, through the next [d - 1] updates, and
    the [d]-th update clears it and sets the speed to [VELOCIDAD_BASE];
    further updates change nothing. *)
Theorem efecto_dura (s : Juego) (e : Efecto) :
  efecto_temporal s = Some e →
  1 ≤ duracion e →
  (∀ k : nat,
     Z.of_nat k < duracion e →
     efecto_temporal (Nat.iter k actualizar_efectos_temporales s)
     = Some {| tipo := tipo e; duracion := duracion e - Z.of_nat k |}
     ∧ velocidad_actual (Nat.iter k actualizar_efectos_temporales s)
       = velocidad_actual s)
  ∧ (∀ k : nat,
       duracion e ≤ Z.of_nat k →
       efecto_temporal (Nat.iter k actualizar_efectos_temporales s) = None
       ∧ velocidad_actual (Nat.iter k actualizar_efectos_temporales s)
         = VELOCIDAD_BASE).
Proof.
  intros He Hd.
  assert (∀ k : nat,
     Z.of_nat k < duracion e →
     efecto_temporal (Nat.iter k actualizar_efectos_temporales s)
     = Some {| tipo := tipo e; duracion := duracion e - Z.of_nat k |}
     ∧ velocidad_actual (Nat.iter k actualizar_efectos_temporales s)
       = velocidad_actual s) as Hantes.
  { induction k as [| k IH]; intros Hk.
    - simpl. rewrite He. destruct e; simpl. split; [| done].
      do 2 f_equal. lia.
    - destruct IH as [IHe IHv]; [lia |]. rewrite iter_S.
      destruct (actualizar_efectos_temporales_casos
                  (Nat.iter k actualizar_efectos_temporales s))
        as [[H0 _] | [(e' & He' & Hd' & -> & ->) | (e' & He' & Hd' & _)]].
      + congruence.
      + rewrite IHe in He'. injection He' as <-. simpl. split; [| done].
        do 2 f_equal. lia.
      + rewrite IHe in He'. injection He' as <-. simpl in Hd'. lia. }
  split; [done |].
  induction k as [| k IH]; intros Hk; [lia |]. rewrite iter_S.
  destruct (decide (duracion e ≤ Z.of_nat k)) as [Hle | Hgt].
  - destruct (IH Hle) as [IHe IHv].
    destruct (actualizar_efectos_temporales_casos
                (Nat.iter k actualizar_efectos_temporales s))
      as [[_ ->] | [(e' & He' & _) | (e' & He' & _)]]; [done | congruence..].
  - destruct (Hantes k ltac:(lia)) as [IHe IHv].
    destruct (actualizar_efectos_temporales_casos
                (Nat.iter k actualizar_efectos_temporales s))
      as [[H0 _] | [(e' & He' & Hd' & _) | (e' & He' & Hd' & -> & ->)]].
    + congruence.
    + rewrite IHe in He'. injection He' as <-. simpl in Hd'. lia.
    + done.
Qed.

(** The slowing effect of a food, in a state of level 3: active for four
    updates, gone with the fifth. *)
Lemma efecto_dura_witness :
  efecto_temporal
    (aplicar_efecto {| c_tipo := ALTO_GRASAS; c_x := 20; c_y := 0 |}
       reiniciado_nivel_3)
  = Some {| tipo := "lento"; duracion := 5 |}
  ∧ 1 ≤ 5
  ∧ efecto_temporal
      (Nat.iter 4 actualizar_efectos_temporales
         (aplicar_efecto {| c_tipo := ALTO_GRASAS; c_x := 20; c_y := 0 |}
            reiniciado_nivel_3))
    = Some {| tipo := "lento"; duracion := 5 - Z.of_nat 4 |}
  ∧ efecto_temporal
      (Nat.iter 5 actualizar_efectos_temporales
         (aplicar_efecto {| c_tipo := ALTO_GRASAS; c_x := 20; c_y := 0 |}
            reiniciado_nivel_3))
    = None.
Proof.
  split; [reflexivity |]. split; [lia |].
  destruct (efecto_dura
              (aplicar_efecto {| c_tipo := ALTO_GRASAS; c_x := 20; c_y := 0 |}
                 reiniciado_nivel_3)
              {| tipo := "lento"; duracion := 5 |} eq_refl)
    as [Hantes Hdespues]; [simpl; lia |].
  split.
  - exact (proj1 (Hantes 4%nat ltac:(simpl; lia))).
  - exact (proj1 (Hdespues 5%nat ltac:(simpl; lia))).
Defined.

(** X6.  A message is shown for 60 screen updates: after [k] calls of
    [actualizar_pantalla] the timer of a message just set is [60 - k],
    down to 0 where it stays, and the message text and colour are kept
    all along. *)
Theorem mensaje_dura (mensaje color : string) (s : Juego) (k : nat) :
  tiempo_mensaje (Nat.iter k actualizar_pantalla (mostrar_mensaje mensaje color s))
  = Z.max 0 (60 - Z.of_nat k)
  ∧ mensaje_actual (Nat.iter k actualizar_pantalla (mostrar_mensaje mensaje color s))
    = mensaje
  ∧ color_mensaje (Nat.iter k actualizar_pantalla (mostrar_mensaje mensaje color s))
    = color.
Proof.
  induction k as [| k (IHt & IHm & IHc)]; [done |].
  rewrite iter_S. unfold actualizar_pantalla at 1 3 5.
  destruct (0 <? tiempo_mensaje _) eqn:Ht; simpl.
  - apply Z.ltb_lt in Ht. split; [lia | done].
  - apply Z.ltb_ge in Ht. split; [lia | done].
Qed.

(** ** Use of the draws *)













(** ** The board during a run *)

Lemma lote_valido_app (obs l1 l2 : list Obstaculo) :
  lote_valido obs (l1 ++ l2) ↔ lote_valido obs l1 ∧ lote_valido (obs ++ l1) l2.
Proof.
  revert obs. induction l1 as [| o l1 IH]; intros obs; simpl.
  - rewrite app_nil_r. tauto.
  - rewrite IH, <- app_assoc. simpl. tauto.
Qed.

Lemma colocar_obstaculos_valido (n : nat) (obs : list Obstaculo) (rs : Azar)
    obs' rs' :
  colocar_obstaculos n obs rs = Some (obs', rs') →
  ∃ lote, obs' = obs ++ lote ∧ lote_valido obs lote.
Proof.
  revert obs rs. induction n as [| n IH]; intros obs rs H; simpl in H.
  { injection H as <- <-. exists []. by rewrite app_nil_r. }
  destruct (colocar_obstaculo obs rs) as [[obs1 rs1] |] eqn:H1; [| done].
  simpl in H. apply colocar_obstaculo_Some in H1 as (o & -> & Ho).
  apply IH in H as (lote & -> & Hl).
  exists (o :: lote). rewrite <- app_assoc. done.
Qed.

Lemma generar_obstaculos_valido (s : Juego) (rs : Azar) s' rs' :
  generar_obstaculos s rs = Some (s', rs') →
  ∃ lote, s' = con_obstaculos (obstaculos s ++ lote) s
        ∧ lote_valido (obstaculos s) lote.
Proof.
  unfold generar_obstaculos. intros H.
  destruct (colocar_obstaculos _ _ _) as [[obs1 rs1] |] eqn:H1; [| done].
  simpl in H. injection H as <- <-.
  apply colocar_obstaculos_valido in H1 as (lote & -> & Hl). eauto.
Qed.

Lemma verificar_subida_nivel_casos (s : Juego) (rs : Azar) s' rs' :
  verificar_subida_nivel s rs = Some (s', rs') →
  s' = s
  ∨ ∃ lote, s' = con_obstaculos (obstaculos s ++ lote) (subir_nivel s)
          ∧ lote_valido (obstaculos s) lote.
Proof.
  unfold verificar_subida_nivel.
  destruct (nivel s <? _) eqn:Hn; [| intros [= <- _]; by left].
  intros H. right. apply generar_obstaculos_valido in H as (lote & -> & Hl).
  eauto.
Qed.

Lemma celda_valida_origen : celda_valida (0, 0).
Proof.
  unfold celda_valida, alineado. simpl.
  repeat split; try lia; apply Z.divide_0_r.
Qed.

Lemma en_cuadricula_alineado (x y : Z) :
  en_cuadricula x → en_cuadricula y → alineado (x, y).
Proof. intros [Hx _] [Hy _]. by split. Qed.

(** One step from a grid cell of the screen leads to a grid cell not more
    than one cell outside. *)
Lemma nueva_posicion_valida (d : string) (p : Pos) :
  alineado p → -290 ≤ fst p ≤ 290 → -290 ≤ snd p ≤ 290 →
  celda_valida (nueva_posicion d p).
Proof.
  destruct p as [x y]. unfold celda_valida, alineado, nueva_posicion,
    TAMAÑO_CELDA. simpl. intros [[i ->] [j ->]] Hx Hy.
  repeat case_match; simpl; repeat split; try lia;
    try (by apply Z.divide_factor_r);
    try (exists (i + 1); lia); try (exists (i - 1); lia);
    try (exists (j + 1); lia); try (exists (j - 1); lia).
Qed.

Lemma verificar_colisiones_dentro (s : Juego) (x y : Z) :
  verificar_colisiones s = Some false →
  serpiente s !! 0%nat = Some (x, y) →
  -290 ≤ x ≤ 290 ∧ -290 ≤ y ≤ 290.
Proof.
  unfold verificar_colisiones. intros H Hc. rewrite Hc in H. simpl in H.
  destruct (_ || _) eqn:Hb; [done |].
  rewrite !orb_false_iff, !Z.ltb_ge in Hb. lia.
Qed.

Lemma colision_false (s : Juego) :
  colision s = Some false →
  verificar_colisiones s = Some false
  ∧ verificar_colision_obstaculos s = Some false.
Proof.
  unfold colision. destruct (verificar_colisiones s) as [[] |]; done.
Qed.

Lemma mover_serpiente_tablero (s s1 : Juego) :
  tablero 4 s → verificar_colisiones s = Some false →
  mover_serpiente s = Some s1 → tablero 4 s1.
Proof.
  intros (Hs & Hrest) Hc Hm.
  destruct (serpiente s) as [| cabeza cuerpo] eqn:Es.
  { destruct (mover_serpiente_forma s) as [H _]. rewrite H in Hm; done. }
  destruct (mover_serpiente_forma s) as [_ H]. rewrite (H _ _ Es) in Hm.
  assert (Forall celda_valida (removelast (cabeza :: cuerpo))) as Hq
    by (rewrite removelast_take; by apply Forall_take).
  injection Hm as <-. split; [| exact Hrest].
  constructor; [| exact Hq].
  destruct cabeza as [x y].
  destruct (verificar_colisiones_dentro s x y Hc) as [Hx Hy];
    [by rewrite Es |].
  apply Forall_cons in Hs as [[Ha _] _]. by apply nueva_posicion_valida.
Qed.

Ltac partes_tablero :=
  unfold tablero; simpl; (split; [| split; [| split; [| split; [| split]]]]).

Lemma tablero_mono (d d' : Z) (s : Juego) :
  d ≤ d' → tablero d s → tablero d' s.
Proof.
  intros Hdd (Hs & Ho & Hc & Hd & He & Ht). partes_tablero; try done.
  intros e H. destruct (He e H) as [Hk Hr]. split; [done | lia].
Qed.

Lemma aplicar_efecto_tablero (c : Comida) (s : Juego) :
  tablero 4 s → tablero 5 (aplicar_efecto c s).
Proof.
  intros Ht. apply (tablero_mono 4 5) in Ht; [| lia].
  destruct Ht as (Hs & Ho & Hc & Hd & He & Ht).
  assert (Forall celda_valida (serpiente s ++ [(0, 0)])) as Hcrece.
  { apply Forall_app. split; [done |].
    apply Forall_singleton, celda_valida_origen. }
  assert (Forall celda_valida (removelast (serpiente s))) as Hquita.
  { rewrite removelast_take. by apply Forall_take. }
  unfold aplicar_efecto.
  destruct (c_tipo c); [destruct (1 <? length (serpiente s))%nat | ..];
    partes_tablero; try done; try lia;
    intros e [= <-]; split; simpl; auto; lia.
Qed.

Lemma con_comida_tablero (d : Z) (c : Comida) (s : Juego) :
  en_cuadricula (c_x c) → en_cuadricula (c_y c) →
  tablero d s → tablero d (con_comida (Some c) s).
Proof.
  intros Hx Hy (Hs & Ho & _ & Hd & He & Ht).
  partes_tablero; try done. by exists c.
Qed.

Lemma verificar_subida_nivel_tablero (d : Z) (s : Juego) (rs : Azar) s' rs' :
  tablero d s → verificar_subida_nivel s rs = Some (s', rs') → tablero d s'.
Proof.
  intros Ht H.
  apply verificar_subida_nivel_casos in H as [-> | (lote & -> & Hl)]; [done |].
  destruct Ht as (Hs & Ho & Hc & Hd & He & Htm).
  partes_tablero; try done. by apply lote_valido_app.
Qed.

Lemma actualizar_efectos_temporales_tablero (s : Juego) :
  tablero 5 s → tablero 4 (actualizar_efectos_temporales s).
Proof.
  intros (Hs & Ho & Hc & Hd & He & Ht).
  unfold actualizar_efectos_temporales.
  destruct (efecto_temporal s) as [e |] eqn:Ee;
    [| partes_tablero; try done; by rewrite Ee].
  destruct (He e eq_refl) as [Hk Hr]. simpl.
  destruct (duracion e - 1 <=? 0) eqn:Hz; partes_tablero; try done.
  apply Z.leb_gt in Hz. intros e' [= <-]. split; simpl; [done | lia].
Qed.

Lemma actualizar_pantalla_tablero (d : Z) (s : Juego) :
  tablero d s → tablero d (actualizar_pantalla s).
Proof.
  intros Ht. unfold actualizar_pantalla.
  destruct (0 <? tiempo_mensaje s) eqn:Hz; [| done].
  destruct Ht as (Hs & Ho & Hc & Hd & He & Ht).
  apply Z.ltb_lt in Hz. partes_tablero; try done. lia.
Qed.

Lemma verificar_comida_tablero (s : Juego) (rs : Azar) s' rs' :
  tablero 4 s → verificar_comida s rs = Some (s', rs') → tablero 5 s'.
Proof.
  intros Ht H.
  apply verificar_comida_Some in H
    as [(_ & -> & _) | (c & c' & rs1 & _ & _ & Hg & Hv)].
  - by apply (tablero_mono 4 5).
  - eapply verificar_subida_nivel_tablero; [| exact Hv].
    pose proof Hg as Hg'.
    apply generar_nueva_comida_Some in Hg' as (c'' & E & Hx & Hy & _).
    rewrite E. apply con_comida_tablero; [done | done |].
    by apply aplicar_efecto_tablero.
Qed.

Lemma game_over_tablero (s : Juego) (rs : Azar) s' rs' :
  game_over s rs = Some (s', rs') → tablero 4 s'.
Proof.
  unfold game_over, inicializar_juego. intros H.
  destruct (generar_obstaculos _ _) as [[s1 rs1] |] eqn:Ho; [| done].
  simpl in H.
  destruct (generar_nueva_comida s1 rs1) as [[s2 rs2] |] eqn:Hg; [| done].
  simpl in H. injection H as <- <-.
  apply generar_obstaculos_valido in Ho as (lote & -> & Hl).
  apply generar_nueva_comida_Some in Hg as (c & -> & Hx & Hy & _).
  partes_tablero; try done; try lia.
  - apply Forall_singleton, celda_valida_origen.
  - by exists c.
  - unfold teclas. set_solver.
Qed.

Lemma iniciar_tablero (rs : Azar) s rs' :
  iniciar rs = Some (s, rs') → tablero 4 s.
Proof.
  unfold iniciar, inicializar_juego. intros H.
  destruct (generar_obstaculos _ _) as [[s1 rs1] |] eqn:Ho; [| done].
  simpl in H.
  apply generar_obstaculos_valido in Ho as (lote & -> & Hl).
  apply generar_nueva_comida_Some in H as (c & -> & Hx & Hy & _).
  partes_tablero; try done; try lia.
  - apply Forall_singleton, celda_valida_origen.
  - by exists c.
  - unfold teclas. set_solver.
Qed.

Lemma cambiar_direccion_tablero (d : string) (s : Juego) :
  d ∈ teclas → tablero 4 s → tablero 4 (cambiar_direccion d s).
Proof.
  intros Hd Ht. destruct (cambiar_direccion_casos d s) as [-> | ->]; [done |].
  destruct Ht as (Hs & Ho & Hc & _ & He & Htm). by partes_tablero.
Qed.

Lemma alcanzable_tablero (s : Juego) : alcanzable s → invariante_tablero s.
Proof.
  unfold invariante_tablero.
  induction 1 as [rs s rs' H | s d _ IH Hd | s rs s' rs' _ IH H].
  - by eapply iniciar_tablero.
  - by apply cambiar_direccion_tablero.
  - destruct (iteracion_colision _ _ _ _ H) as [Hc | Hc].
    + rewrite iteracion_choque in H by done. by eapply game_over_tablero.
    + pose proof (colision_false _ Hc) as [Hv _].
      apply iteracion_sin_choque in H as (s1 & s2 & Hm & Hvc & ->); [| done].
      apply actualizar_pantalla_tablero,
        actualizar_efectos_temporales_tablero.
      eapply verificar_comida_tablero; [| exact Hvc].
      by eapply mover_serpiente_tablero.
Qed.

(** X8.  In every state of a run all positions are on the grid: the snake
    segments are multiples of 20 at most one cell outside the screen
    (within -300..300), the obstacles and the live food, which always
    exists, are multiples of 20 within -280..280. *)
Theorem posiciones_en_cuadricula (s : Juego) :
  alcanzable s →
  (∀ p, p ∈ serpiente s →
     (TAMAÑO_CELDA | fst p) ∧ (TAMAÑO_CELDA | snd p)
     ∧ -300 ≤ fst p ≤ 300 ∧ -300 ≤ snd p ≤ 300)
  ∧ (∀ o, o ∈ obstaculos s →
       (TAMAÑO_CELDA | o_x o) ∧ (TAMAÑO_CELDA | o_y o)
       ∧ -280 ≤ o_x o ≤ 280 ∧ -280 ≤ o_y o ≤ 280)
  ∧ ∃ c, comida s = Some c
       ∧ (TAMAÑO_CELDA | c_x c) ∧ (TAMAÑO_CELDA | c_y c)
       ∧ -280 ≤ c_x c ≤ 280 ∧ -280 ≤ c_y c ≤ 280.
Proof.
  intros Ha. destruct (alcanzable_tablero s Ha) as (Hs & Ho & Hc & _).
  split; [| split].
  - intros p Hp. rewrite Forall_forall in Hs.
    destruct (Hs p Hp) as ([? ?] & ? & ?). done.
  - intros o Hin. apply list_elem_of_split in Hin as (l1 & l2 & E).
    rewrite E in Ho. apply lote_valido_app in Ho as [_ [Hv _]].
    destruct Hv as ([? ?] & [? ?] & _). done.
  - destruct Hc as (c & Hc & [? ?] & [? ?]). by exists c.
Qed.

Lemma posiciones_en_cuadricula_witness :
  alcanzable choque_nivel_3
  ∧ ∀ p, p ∈ serpiente choque_nivel_3 →
      (TAMAÑO_CELDA | fst p) ∧ (TAMAÑO_CELDA | snd p)
      ∧ -300 ≤ fst p ≤ 300 ∧ -300 ≤ snd p ≤ 300.
Proof.
  split; [exact choque_nivel_3_alcanzable |].
  exact (proj1 (posiciones_en_cuadricula choque_nivel_3
                  choque_nivel_3_alcanzable)).
Defined.

Lemma conflicto_obstaculo_false (x y : Z) (obs : list Obstaculo) :
  conflicto_obstaculo x y obs = false ↔
    ∀ o, o ∈ obs → ¬ cerca 40 (posicion_obstaculo o) (x, y).
Proof.
  unfold conflicto_obstaculo. rewrite existsb_false_elem_of.
  split; intros H o Ho.
  - apply (cerca_bool 40 (posicion_obstaculo o) (x, y)). by apply H.
  - apply (cerca_bool 40 (posicion_obstaculo o) (x, y)). by apply H.
Qed.

(** In a valid batch every obstacle was accepted next to the ones before
    it. *)
Lemma lote_valido_lookup (l : list Obstaculo) (j : nat) (o : Obstaculo) :
  lote_valido [] l → l !! j = Some o → obstaculo_valido (take j l) o.
Proof.
  intros Hv Hj. rewrite <- (take_drop_middle l j o Hj) in Hv.
  by apply lote_valido_app in Hv as [_ [Hv _]].
Qed.

(** X9.  In every state of a run the obstacles keep the two rules of
    [generar_obstaculos]: none lies in the block of 5 x 5 cells around the
    centre, and any two of them are at least two cells apart on some
    axis, so no two obstacles touch or coincide. *)
Theorem obstaculos_separados (s : Juego) :
  alcanzable s →
  (∀ o, o ∈ obstaculos s → 40 < Z.abs (o_x o) ∨ 40 < Z.abs (o_y o))
  ∧ (∀ i j oi oj,
       (i < j)%nat →
       obstaculos s !! i = Some oi → obstaculos s !! j = Some oj →
       40 ≤ Z.abs (o_x oi - o_x oj) ∨ 40 ≤ Z.abs (o_y oi - o_y oj)).
Proof.
  intros Ha. destruct (alcanzable_tablero s Ha) as (_ & Ho & _).
  split.
  - intros o Hin. apply list_elem_of_lookup in Hin as [j Hj].
    by destruct (lote_valido_lookup _ _ _ Ho Hj) as (_ & _ & ? & _).
  - intros i j oi oj Hij Hi Hj.
    destruct (lote_valido_lookup _ _ _ Ho Hj) as (_ & _ & _ & Hk).
    rewrite conflicto_obstaculo_false in Hk.
    assert (oi ∈ take j (obstaculos s)) as Hin.
    { apply list_elem_of_lookup. exists i. by rewrite lookup_take_lt. }
    specialize (Hk oi Hin). unfold cerca, posicion_obstaculo in Hk.
    simpl in Hk. lia.
Qed.

Lemma obstaculos_separados_witness :
  alcanzable choque_nivel_3
  ∧ ∀ o, o ∈ obstaculos choque_nivel_3 →
      40 < Z.abs (o_x o) ∨ 40 < Z.abs (o_y o).
Proof.
  split; [exact choque_nivel_3_alcanzable |].
  exact (proj1 (obstaculos_separados choque_nivel_3
                  choque_nivel_3_alcanzable)).
Defined.

(** ** Collisions *)

(** On the grid, two positions are nearer than 10 or 15 only when they are
    the same cell. *)
Lemma distancia_menor_alineada (a b : Pos) (r : Z) :
  alineado a → alineado b → 0 < r ≤ 20 →
  distancia_menor a b r = true ↔ a = b.
Proof.
  destruct a as [x1 y1], b as [x2 y2].
  unfold alineado, distancia_menor, TAMAÑO_CELDA. simpl.
  intros [[i ->] [j ->]] [[k ->] [l ->]] Hr. rewrite Z.ltb_lt. split.
  - intros H.
    assert (r * r ≤ 400) as Hrr by nia.
    assert ((i - k) * (i - k) + (j - l) * (j - l) < 1) as Hab by lia.
    pose proof (Z.square_nonneg (i - k)) as Hi.
    pose proof (Z.square_nonneg (j - l)) as Hj.
    assert (i - k = 0) by nia. assert (j - l = 0) by nia.
    f_equal; lia.
  - intros [= Hi Hj]. assert (i = k) as -> by lia.
    assert (j = l) as -> by lia. nia.
Qed.

Lemma elem_of_drop_1 {A} (a : A) (l : list A) : a ∈ drop 1 l → a ∈ l.
Proof.
  destruct l as [| b l]; simpl; [done |]. rewrite drop_0.
  intros H. apply elem_of_cons. by right.
Qed.

Lemma existsb_true_elem_of {A} (f : A → bool) (l : list A) :
  existsb f l = true ↔ ∃ a, a ∈ l ∧ f a = true.
Proof.
  rewrite existsb_exists. split; intros (a & Ha & Hf); exists a; split;
    try done; by apply list_elem_of_In.
Qed.

Lemma verificar_colision_obstaculos_eq (s : Juego) (cabeza : Pos) :
  serpiente s !! 0%nat = Some cabeza →
  verificar_colision_obstaculos s
  = Some (existsb (λ o, distancia_menor cabeza (o_x o, o_y o) 15)
            (obstaculos s)).
Proof. intros H. unfold verificar_colision_obstaculos. by rewrite H. Qed.

(** X10.  In a state of a run the collision tests are tests on cells.
    The head collides with the wall or the body exactly when it stands
    one cell outside the screen (a coordinate of 300 or -300) or on the
    cell of a later segment; it collides with an obstacle exactly when it
    stands on the obstacle's cell. *)
Theorem choques_exactos (s : Juego) (x y : Z) :
  alcanzable s →
  serpiente s !! 0%nat = Some (x, y) →
  (verificar_colisiones s = Some true ↔
     (x = 300 ∨ x = -300 ∨ y = 300 ∨ y = -300)
     ∨ (x, y) ∈ drop 1 (serpiente s))
  ∧ (verificar_colision_obstaculos s = Some true ↔
       ∃ o, o ∈ obstaculos s ∧ posicion_obstaculo o = (x, y)).
Proof.
  intros Ha Hc.
  destruct (alcanzable_tablero s Ha) as (Hs & Ho & _).
  rewrite Forall_forall in Hs.
  assert (celda_valida (x, y)) as ([[i Hi] [j Hj]] & Hx & Hy).
  { apply Hs. apply list_elem_of_lookup. eauto. }
  assert (alineado (x, y)) as Hal by (split; [by exists i | by exists j]).
  simpl in Hi, Hj, Hx, Hy. unfold TAMAÑO_CELDA in Hi, Hj. split.
  - unfold verificar_colisiones. rewrite Hc. simpl.
    destruct (_ || _) eqn:Hb.
    + split; [| done]. intros _. left.
      rewrite !orb_true_iff, !Z.ltb_lt in Hb. lia.
    + rewrite !orb_false_iff, !Z.ltb_ge in Hb. split.
      * intros [= H]. right. apply existsb_true_elem_of in H as (p & Hp & H).
        apply distancia_menor_alineada in H; [by subst | done | | lia].
        apply Hs. by apply elem_of_drop_1.
      * intros [Hf | Hin]; [lia |]. f_equal.
        apply existsb_true_elem_of. exists (x, y). split; [done |].
        apply distancia_menor_alineada; [done | done | lia | done].
  - rewrite (verificar_colision_obstaculos_eq s (x, y) Hc). split.
    + intros [= H]. apply existsb_true_elem_of in H as (o & Hin & H).
      exists o. split; [done |].
      apply distancia_menor_alineada in H; [done | done | | lia].
      apply list_elem_of_split in Hin as (l1 & l2 & E).
      rewrite E in Ho. apply lote_valido_app in Ho as [_ [Hv _]].
      destruct Hv as (? & ? & _). by apply en_cuadricula_alineado.
    + intros (o & Hin & E). f_equal.
      apply existsb_true_elem_of. exists o. split; [done |].
      unfold posicion_obstaculo in E. rewrite E.
      apply distancia_menor_alineada; [done | done | lia | done].
Qed.

(** The head of [choque_nivel_3] is one cell outside the screen. *)
Lemma choques_exactos_witness :
  alcanzable choque_nivel_3
  ∧ serpiente choque_nivel_3 !! 0%nat = Some (300, 0)
  ∧ verificar_colisiones choque_nivel_3 = Some true.
Proof.
  split; [exact choque_nivel_3_alcanzable |]. split; [reflexivity |].
  apply (proj1 (choques_exactos choque_nivel_3 300 0
                  choque_nivel_3_alcanzable eq_refl)).
  left. left. reflexivity.
Defined.

(** X11.  The food is eaten exactly when the head, after its advance,
    stands on the cell of the food. *)
Theorem come_exacto (s s1 : Juego) :
  alcanzable s →
  colision s = Some false →
  mover_serpiente s = Some s1 →
  ∃ cabeza c,
    serpiente s1 !! 0%nat = Some cabeza ∧ comida s1 = Some c
    ∧ (come s1 = Some true ↔ cabeza = posicion_comida c)
    ∧ (come s1 = Some false ↔ cabeza ≠ posicion_comida c).
Proof.
  intros Ha Hc Hm.
  pose proof (colision_false _ Hc) as [Hv _].
  pose proof (mover_serpiente_tablero s s1 (alcanzable_tablero s Ha) Hv Hm)
    as (Hs & _ & (c & Hcom & Hx & Hy) & _).
  destruct (serpiente s1) as [| cabeza cuerpo] eqn:Es.
  { apply mover_serpiente_Some in Hm as (l & -> & Hl & Hlen).
    simpl in Es. rewrite Es in Hl. simpl in Hl. lia. }
  exists cabeza, c. split; [done |]. split; [done |].
  apply Forall_cons in Hs as [[Hal _] _].
  pose proof (distancia_menor_alineada cabeza (posicion_comida c) 15 Hal
                (en_cuadricula_alineado _ _ Hx Hy) ltac:(lia)) as Hd.
  unfold come. rewrite Es, Hcom. simpl.
  fold (posicion_comida c).
  destruct (distancia_menor cabeza (posicion_comida c) 15).
  - assert (cabeza = posicion_comida c) as E by (by apply Hd).
    split; split; done.
  - assert (cabeza ≠ posicion_comida c) as E
      by (intros E; by apply Hd in E).
    split; split; done.
Qed.

(** The first round of the scripted player: the head reaches the food at
    (20, 0). *)
Lemma come_exacto_witness :
  alcanzable reiniciado_nivel_3
  ∧ colision reiniciado_nivel_3 = Some false
  ∧ ∃ s1, mover_serpiente reiniciado_nivel_3 = Some s1
        ∧ come s1 = Some true.
Proof.
  pose proof (limpio_alcanzable _ reiniciado_nivel_3_limpio) as Ha.
  split; [exact Ha |]. split; [reflexivity |].
  eexists. split; [reflexivity |].
  destruct (come_exacto reiniciado_nivel_3 _ Ha eq_refl eq_refl)
    as (cabeza & c & Hcab & Hcom & Hsi & _).
  apply Hsi. injection Hcab as <-. injection Hcom as <-. reflexivity.
Defined.

(** X12.  A restart, and the constructor, never leave the game in a
    collision: the head is at the centre, inside the screen, alone, and
    no obstacle is put on the cells around the centre. *)
Theorem reinicio_sin_choque (s : Juego) (rs : Azar) (s' : Juego) (rs' : Azar) :
  game_over s rs = Some (s', rs') ∨ iniciar rs = Some (s', rs') →
  colision s' = Some false.
Proof.
  intros H.
  assert (serpiente s' = [(0, 0)] ∧ tablero 4 s') as [Es Ht].
  { destruct H as [H | H].
    - split; [| by eapply game_over_tablero].
      by apply game_over_Some in H as (lote & rs1 & c & _ & ->).
    - split; [| by eapply iniciar_tablero].
      by apply iniciar_Some in H as (c & ->). }
  destruct Ht as (_ & Ho & _).
  unfold colision, verificar_colisiones, verificar_colision_obstaculos.
  rewrite Es. simpl. f_equal. apply existsb_false_elem_of. intros o Hin.
  apply list_elem_of_lookup in Hin as [j Hj].
  destruct (lote_valido_lookup _ _ _ Ho Hj) as (_ & _ & Hcentro & _).
  unfold distancia_menor. simpl. apply Z.ltb_ge. nia.
Qed.

Lemma reinicio_sin_choque_witness :
  game_over choque_nivel_3 [0; 560; 40; 560; 80; 560; 120; 560; 300; 280; 7]
  = Some (reiniciado_nivel_3, [])
  ∧ colision reiniciado_nivel_3 = Some false.
Proof.
  assert (game_over choque_nivel_3
            [0; 560; 40; 560; 80; 560; 120; 560; 300; 280; 7]
          = Some (reiniciado_nivel_3, [])) as H by (vm_compute; reflexivity).
  split; [exact H |].
  exact (reinicio_sin_choque _ _ _ _ (or_introl H)).
Defined.

(** ** State kept between rounds *)

(** X13.  At the top of the loop the direction is one of the four key
    names, an active effect is "lento" or "rapido" with 1 to 4 rounds
    left (a food sets 5 and the same round takes one off), and the message
    timer is within 0..60. *)
Theorem estado_entre_rondas (s : Juego) :
  alcanzable s →
  direccion s ∈ teclas
  ∧ (∀ e, efecto_temporal s = Some e →
       (tipo e = "lento" ∨ tipo e = "rapido") ∧ 1 ≤ duracion e ≤ 4)
  ∧ 0 ≤ tiempo_mensaje s ≤ 60.
Proof.
  intros Ha. by destruct (alcanzable_tablero s Ha) as (_ & _ & _ & ? & ? & ?).
Qed.

Lemma estado_entre_rondas_witness :
  alcanzable efecto_por_expirar
  ∧ direccion efecto_por_expirar ∈ teclas
  ∧ 0 ≤ tiempo_mensaje efecto_por_expirar ≤ 60.
Proof.
  split; [exact efecto_por_expirar_alcanzable |].
  destruct (estado_entre_rondas efecto_por_expirar
              efecto_por_expirar_alcanzable) as (Hd & _ & Ht).
  split; [exact Hd | exact Ht].
Defined.

Lemma paso_unitario_teclas (d : string) :
  d ∈ teclas → ∃ dx dy, paso_unitario d = Some (dx, dy)
                      ∧ Z.abs dx + Z.abs dy = 1.
Proof.
  unfold teclas. intros H.
  repeat (apply elem_of_cons in H as [-> | H]; [by eexists _, _ |]).
  by apply elem_of_nil in H.
Qed.

Lemma aplicar_efecto_cabeza (c : Comida) (s : Juego) (cabeza : Pos) :
  serpiente s !! 0%nat = Some cabeza →
  serpiente (aplicar_efecto c s) !! 0%nat = Some cabeza.
Proof.
  intros H. pose proof (lookup_lt_Some _ _ _ H) as Hl.
  unfold aplicar_efecto.
  destruct (c_tipo c); [destruct (1 <? length (serpiente s))%nat eqn:E | ..];
    simpl; try done; try (by rewrite lookup_app_l).
  apply Nat.ltb_lt in E. rewrite removelast_take.
  by rewrite lookup_take_lt by lia.
Qed.

(** X14.  In a run, a round that does not restart the game moves the head
    by exactly one cell along one axis, in the stored direction, whether
    or not a food is eaten in the round. *)
Theorem ronda_avanza_una_celda (s : Juego) (rs : Azar) (s' : Juego)
    (rs' : Azar) (x y : Z) :
  alcanzable s →
  colision s = Some false →
  serpiente s !! 0%nat = Some (x, y) →
  iteracion s rs = Some (s', rs') →
  ∃ dx dy,
    paso_unitario (direccion s) = Some (dx, dy)
    ∧ Z.abs dx + Z.abs dy = 1
    ∧ serpiente s' !! 0%nat
      = Some (x + dx * TAMAÑO_CELDA, y + dy * TAMAÑO_CELDA)
    ∧ direccion s' = direccion s.
Proof.
  intros Ha Hc Hcab H.
  destruct (alcanzable_tablero s Ha) as (_ & _ & _ & Hd & _).
  destruct (paso_unitario_teclas _ Hd) as (dx & dy & Hp & Hu).
  exists dx, dy. split; [done |]. split; [done |].
  apply iteracion_sin_choque in H as (s1 & s2 & Hm & Hvc & ->); [| done].
  destruct (mover_serpiente_avanza s x y dx dy Hcab Hp)
    as (l & Hm' & _ & H0 & _).
  rewrite Hm' in Hm. injection Hm as <-.
  destruct (actualizar_pantalla_fijos (actualizar_efectos_temporales s2))
    as (-> & _).
  destruct (actualizar_efectos_temporales_fijos s2) as (-> & _).
  assert (direccion (actualizar_pantalla (actualizar_efectos_temporales s2))
          = direccion s2) as ->.
  { unfold actualizar_pantalla, actualizar_efectos_temporales.
    repeat case_match; done. }
  apply verificar_comida_casos in Hvc
    as [(_ & ->) | (c & c' & _ & _ & Hcasos)]; [done |].
  destruct (aplicar_efecto_fijos c (con_serpiente l s)) as (_ & _ & Ed & _).
  pose proof (aplicar_efecto_cabeza c (con_serpiente l s) _ H0) as Ec.
  destruct Hcasos as [[-> _] | (lote & _ & -> & _)]; simpl; by rewrite Ed.
Qed.

Lemma ronda_avanza_una_celda_witness :
  alcanzable efecto_por_expirar
  ∧ colision efecto_por_expirar = Some false
  ∧ serpiente efecto_por_expirar !! 0%nat = Some (200, 60)
  ∧ ∃ s' rs', iteracion efecto_por_expirar [] = Some (s', rs')
            ∧ serpiente s' !! 0%nat
              = Some (200 + 0 * TAMAÑO_CELDA, 60 + 1 * TAMAÑO_CELDA).
Proof.
  split; [exact efecto_por_expirar_alcanzable |].
  split; [reflexivity |]. split; [reflexivity |].
  assert (∃ s' rs', iteracion efecto_por_expirar [] = Some (s', rs'))
    as (s' & rs' & Hi) by (eexists _, _; vm_compute; reflexivity).
  exists s', rs'. split; [exact Hi |].
  destruct (ronda_avanza_una_celda efecto_por_expirar [] s' rs' 200 60
              efecto_por_expirar_alcanzable eq_refl eq_refl Hi)
    as (dx & dy & Hp & _ & Hc & _).
  vm_compute in Hp. injection Hp as <- <-. exact Hc.
Defined.

Lemma verificar_comida_no_come (s : Juego) (rs : Azar) :
  come s = Some false → verificar_comida s rs = Some (s, rs).
Proof.
  unfold come, verificar_comida.
  destruct (serpiente s !! 0%nat) as [cabeza |]; [| done].
  destruct (comida s) as [c |]; [| done]. simpl.
  by destruct (distancia_menor _ _ _).
Qed.

(** X15.  In a run, a round that neither collides nor reaches the food
    needs no draw and cannot fail: it returns the state with the snake
    advanced, the effect and the message timer updated, and all the draws
    it was given.  The snake is never empty and a food is always there,
    so no round stops on a missing head or a missing food. *)
Theorem ronda_sin_sorteos (s : Juego) :
  alcanzable s →
  serpiente s ≠ [] ∧ comida s ≠ None
  ∧ (colision s = Some true ∨ colision s = Some false)
  ∧ (colision s = Some false →
     ∃ s1, mover_serpiente s = Some s1
         ∧ (come s1 = Some true ∨ come s1 = Some false)
         ∧ (come s1 = Some false →
            ∀ rs, iteracion s rs
                  = Some (actualizar_pantalla
                            (actualizar_efectos_temporales s1), rs))).
Proof.
  intros Ha.
  destruct (alcanzable_invariante s Ha) as (Hlen & _).
  destruct (alcanzable_tablero s Ha) as (_ & _ & (c & Hc & _) & _).
  destruct (serpiente s) as [| cabeza cuerpo] eqn:Es; [simpl in Hlen; lia |].
  split; [done |]. split; [by rewrite Hc |].
  assert (colision s = Some true ∨ colision s = Some false) as Hcol.
  { unfold colision, verificar_colisiones, verificar_colision_obstaculos.
    rewrite Es. destruct cabeza as [x y]. simpl.
    destruct (_ || _); [by left |].
    destruct (existsb _ _); [by left |].
    destruct (existsb _ _); auto. }
  split; [done |]. intros Hf.
  destruct (mover_serpiente_forma s) as [_ Hm].
  specialize (Hm _ _ Es). eexists. split; [exact Hm |].
  split.
  - unfold come. cbn [serpiente comida con_serpiente lookup list_lookup].
    rewrite Hc. cbn [mbind option_bind].
    destruct (distancia_menor _ _ _); auto.
  - intros Hcome rs. apply colision_false in Hf as [Hv1 Hv2].
    unfold iteracion. rewrite Hv1, Hv2, Hm. cbn [mbind option_bind].
    by rewrite (verificar_comida_no_come _ rs Hcome).
Qed.

Lemma ronda_sin_sorteos_witness :
  alcanzable efecto_por_expirar
  ∧ serpiente efecto_por_expirar ≠ []
  ∧ comida efecto_por_expirar ≠ None.
Proof.
  split; [exact efecto_por_expirar_alcanzable |].
  destruct (ronda_sin_sorteos efecto_por_expirar
              efecto_por_expirar_alcanzable) as (Hs & Hc & _).
  split; [exact Hs | exact Hc].
Defined.

(** ** Levels in a run *)

(** X16.  In a run the level never goes down: a round raises it by one at
    most, a restart keeps level and score, and after every round the level
    is at least [puntaje // 50 + 1] (it is more when poisonous food has
    taken the score back below a threshold already passed). *)
Theorem nivel_por_ronda (s : Juego) (rs : Azar) (s' : Juego) (rs' : Azar) :
  alcanzable s →
  iteracion s rs = Some (s', rs') →
  nivel s ≤ nivel s' ≤ nivel s + 1
  ∧ puntaje s' `div` PUNTOS_POR_NIVEL + 1 ≤ nivel s'
  ∧ (colision s = Some true → nivel s' = nivel s ∧ puntaje s' = puntaje s).
Proof.
  intros Ha H.
  assert (alcanzable s') as Ha' by (by eapply alcanzable_iteracion).
  destruct (alcanzable_invariante s' Ha') as (_ & _ & _ & Hpn & _).
  destruct (iteracion_colision _ _ _ _ H) as [Hc | Hc].
  - rewrite iteracion_choque in H by done.
    apply game_over_Some in H as (lote & rs1 & c & _ & ->). simpl in *.
    repeat split; try done; lia.
  - destruct (ronda_invariante _ _ _ _ Hc (alcanzable_invariante s Ha) H)
      as (_ & lote & _ & [[Hn _] | [Hn _]]);
      (split; [lia |]; split; [done |]); intros Hc'; congruence.
Qed.

(** The round that restarts [choque_nivel_3] keeps level 3. *)
Lemma nivel_por_ronda_witness :
  alcanzable choque_nivel_3
  ∧ iteracion choque_nivel_3 [0; 560; 40; 560; 80; 560; 120; 560; 300; 280; 7]
    = Some (reiniciado_nivel_3, [])
  ∧ nivel reiniciado_nivel_3 = nivel choque_nivel_3
  ∧ puntaje reiniciado_nivel_3 = puntaje choque_nivel_3.
Proof.
  assert (iteracion choque_nivel_3
            [0; 560; 40; 560; 80; 560; 120; 560; 300; 280; 7]
          = Some (reiniciado_nivel_3, [])) as Hi by (vm_compute; reflexivity).
  split; [exact choque_nivel_3_alcanzable |]. split; [exact Hi |].
  destruct (nivel_por_ronda _ _ _ _ choque_nivel_3_alcanzable Hi)
    as (_ & _ & Hc).
  apply Hc. reflexivity.
Defined.

(** ** Counting the games *)

(** X17.  [juegos_jugados] counts the restarts: a round that finds a
    collision adds one, every other round and every key press leave the
    counter as it is. *)
Theorem juegos_jugados_cuenta (s : Juego) :
  (∀ rs s' rs',
     iteracion s rs = Some (s', rs') →
     juegos_jugados s'
     = juegos_jugados s + (if decide (colision s = Some true) then 1 else 0))
  ∧ (∀ d, juegos_jugados (cambiar_direccion d s) = juegos_jugados s).
Proof.
  split; [| intros d; by destruct (cambiar_direccion_casos d s) as [-> | ->]].
  intros rs s' rs' H.
  destruct (iteracion_colision _ _ _ _ H) as [Hc | Hc].
  - rewrite decide_True by done. rewrite iteracion_choque in H by done.
    by apply game_over_Some in H as (lote & rs1 & c & _ & ->).
  - rewrite decide_False by congruence.
    apply iteracion_sin_choque in H as (s1 & s2 & Hm & Hvc & ->); [| done].
    apply mover_serpiente_Some in Hm as (l & -> & _).
    assert (juegos_jugados (actualizar_pantalla (actualizar_efectos_temporales s2))
            = juegos_jugados s2) as ->.
    { unfold actualizar_pantalla, actualizar_efectos_temporales.
      repeat case_match; done. }
    apply verificar_comida_casos in Hvc
      as [(_ & ->) | (c & c' & _ & _ & Hcasos)]; [simpl; lia |].
    destruct (aplicar_efecto_fijos c (con_serpiente l s)) as (_ & _ & _ & Ej).
    destruct Hcasos as [[-> _] | (lote & _ & -> & _)]; simpl; rewrite Ej;
      simpl; lia.
Qed.

(** ** Foods in a row *)

(** X18.  The timers of the effects do not add up but the speed changes
    do: after [n >= 1] fat foods in a row the effect is "lento" with 5
    rounds and the speed is [max(50, v - 50 n)]; after [n >= 1] royal
    foods it is "rapido" with 5 rounds and the speed is
    [min(300, v + 30 n)]. *)
Theorem efectos_seguidos (s : Juego) (c : Comida) (n : nat) :
  (c_tipo c = ALTO_GRASAS →
     velocidad_actual (aplicar_efectos (replicate (S n) c) s)
     = Z.max 50 (velocidad_actual s - 50 * Z.of_nat (S n))
     ∧ efecto_temporal (aplicar_efectos (replicate (S n) c) s)
       = Some {| tipo := "lento"; duracion := 5 |})
  ∧ (c_tipo c = REAL →
       velocidad_actual (aplicar_efectos (replicate (S n) c) s)
       = Z.min 300 (velocidad_actual s + 30 * Z.of_nat (S n))
       ∧ efecto_temporal (aplicar_efectos (replicate (S n) c) s)
         = Some {| tipo := "rapido"; duracion := 5 |}).
Proof.
  unfold aplicar_efectos. split; intros Hc; revert s;
    induction n as [| n IH]; intros s.
  - simpl. unfold aplicar_efecto. rewrite Hc. simpl. split; [lia | done].
  - change (replicate (S (S n)) c) with (c :: replicate (S n) c).
    cbn [foldl]. destruct (IH (aplicar_efecto c s)) as [-> ->].
    split; [| done]. unfold aplicar_efecto. rewrite Hc. simpl. lia.
  - simpl. unfold aplicar_efecto. rewrite Hc. simpl. split; [lia | done].
  - change (replicate (S (S n)) c) with (c :: replicate (S n) c).
    cbn [foldl]. destruct (IH (aplicar_efecto c s)) as [-> ->].
    split; [| done]. unfold aplicar_efecto. rewrite Hc. simpl. lia.
Qed.

(** ** The status line *)

(** X19.  In a run the status line names the active effect: its suffix is
    " (LENTO)" or " (RÁPIDO)" when an effect is active, according to the
    kind, and empty exactly when none is; the [elif] chain of
    [actualizar_pantalla] never falls through with an effect active. *)
Theorem efecto_texto_activo (s : Juego) :
  alcanzable s →
  (efecto_texto s = "" ↔ efecto_temporal s = None)
  ∧ (∀ e, efecto_temporal s = Some e →
       (tipo e = "lento" ∧ efecto_texto s = " (LENTO)")
       ∨ (tipo e = "rapido" ∧ efecto_texto s = " (RÁPIDO)")).
Proof.
  intros Ha. destruct (alcanzable_tablero s Ha) as (_ & _ & _ & _ & He & _).
  unfold efecto_texto.
  destruct (efecto_temporal s) as [e |]; [| split; [done | by intros e [=]]].
  destruct (He e eq_refl) as [[Hk | Hk] _]; rewrite Hk; simpl.
  - split; [split; done |]. intros e' [= <-]. left. done.
  - split; [split; done |]. intros e' [= <-]. right. done.
Qed.

Lemma efecto_texto_activo_witness :
  alcanzable efecto_por_expirar
  ∧ efecto_texto efecto_por_expirar = " (RÁPIDO)"
  ∧ texto_puntaje efecto_por_expirar
    = "Puntaje: 50 | Nivel: 2 | Partidas: 0 (RÁPIDO)".
Proof.
  split; [exact efecto_por_expirar_alcanzable |].
  destruct (efecto_texto_activo efecto_por_expirar
              efecto_por_expirar_alcanzable) as [_ H].
  destruct (H _ eq_refl) as [[Hk _] | [_ Ht]]; [discriminate Hk |].
  split; [exact Ht | vm_compute; reflexivity].
Defined.
